(** * Verification of the thulp-skills execution engine

    A shallow embedding of [crates/thulp-skills]: the retry policy
    ([retry.rs]), the variable substitution and the default executor
    ([default_executor.rs]), with the configuration types of [config.rs]
    and the result types of [executor.rs] and [lib.rs].

    Modelling choices:
    - a [std::time::Duration] is its number of nanoseconds, a [Z] between
      0 and [DURATION_MAX];
    - Rust strings are [string]s of ASCII characters; [str::trim] and
      [str::to_lowercase] act on the ASCII range;
    - a JSON number is an integer (the floating-point numbers of
      [serde_json::Number] are left out);
    - a [HashMap] or a [serde_json::Map] is an association list whose order
      is the map's iteration order. *)

From Stdlib Require Import ZArith List String Ascii Bool Lia.
From Stdlib Require Import Numbers.DecimalString.
Import ListNotations.

Open Scope string_scope.
Open Scope Z_scope.

(** ** Strings: the [str] methods the engine uses *)
Module Str.

(** [p] is a prefix of [s] ([s.starts_with(p)]). *)
Fixpoint prefixb (p s : string) : bool :=
  match p, s with
  | EmptyString, _ => true
  | String a p', String b s' => Ascii.eqb a b && prefixb p' s'
  | String _ _, EmptyString => false
  end.

(** [s.contains(p)]. *)
Fixpoint contains (s p : string) : bool :=
  prefixb p s ||
  match s with
  | EmptyString => false
  | String _ s' => contains s' p
  end.

Fixpoint rev_str (s : string) : string :=
  match s with
  | EmptyString => EmptyString
  | String c s' => rev_str s' ++ String c EmptyString
  end.

(** [s.ends_with(p)]. *)
Definition ends_with (s p : string) : bool :=
  prefixb (rev_str p) (rev_str s).

(** [char::is_whitespace] on ASCII: tab, LF, VT, FF, CR and space. *)
Definition is_whitespace (c : ascii) : bool :=
  let n := nat_of_ascii c in
  ((9 <=? n) && (n <=? 13))%nat || (n =? 32)%nat.

Fixpoint trim_start (s : string) : string :=
  match s with
  | EmptyString => EmptyString
  | String c s' => if is_whitespace c then trim_start s' else s
  end.

Definition trim_end (s : string) : string :=
  rev_str (trim_start (rev_str s)).

(** [str::trim]. *)
Definition trim (s : string) : string := trim_end (trim_start s).

(** [char::to_lowercase] on ASCII. *)
Definition ascii_to_lower (c : ascii) : ascii :=
  let n := nat_of_ascii c in
  if ((65 <=? n) && (n <=? 90))%nat then ascii_of_nat (n + 32) else c.

(** [str::to_lowercase]. *)
Fixpoint to_lowercase (s : string) : string :=
  match s with
  | EmptyString => EmptyString
  | String c s' => String (ascii_to_lower c) (to_lowercase s')
  end.

(** [s.replace(pat, to)]: the non-overlapping occurrences of [pat], found
    from left to right, are replaced by [to]; [skip] counts the characters
    of a match still to drop.  [pat] is never empty where it is used. *)
Fixpoint replace_aux (pat to : string) (skip : nat) (s : string) : string :=
  match s with
  | EmptyString => EmptyString
  | String c s' =>
      match skip with
      | S k => replace_aux pat to k s'
      | O =>
          if prefixb pat s then to ++ replace_aux pat to (pred (length pat)) s'
          else String c (replace_aux pat to O s')
      end
  end.

Definition replace (s pat to : string) : string := replace_aux pat to O s.

End Str.

(** ** Durations *)
Module Dur.

(** [Duration::MAX]: [u64::MAX] seconds and 999_999_999 nanoseconds. *)
Definition DURATION_MAX : Z := (2 ^ 64 - 1) * 1000000000 + 999999999.

Definition from_secs (s : Z) : Z := s * 1000000000.
Definition from_millis (ms : Z) : Z := ms * 1000000.

(** [Duration::as_millis] (a [u128]). *)
Definition as_millis (d : Z) : Z := d / 1000000.

(** [Duration::saturating_mul] by a [u32]. *)
Definition saturating_mul (d m : Z) : Z :=
  if DURATION_MAX <? d * m then DURATION_MAX else d * m.

(** [Duration::checked_add]; the operator [+] panics on [None]. *)
Definition checked_add (a b : Z) : option Z :=
  if DURATION_MAX <? a + b then None else Some (a + b).

(** [std::cmp::min] on durations. *)
Definition min (a b : Z) : Z := Z.min a b.

End Dur.

(** ** Retry policy ([config.rs], [retry.rs]) *)
Module Retry.

Inductive BackoffStrategy := Fixed | Exponential | ExponentialJitter.

Inductive RetryableError := Network | RateLimit | Timeout | ServerError | All.

Definition retryable_error_eqb (a b : RetryableError) : bool :=
  match a, b with
  | Network, Network | RateLimit, RateLimit | Timeout, Timeout
  | ServerError, ServerError | All, All => true
  | _, _ => false
  end.

(** [Vec::contains]. *)
Definition has (l : list RetryableError) (e : RetryableError) : bool :=
  existsb (retryable_error_eqb e) l.

Record RetryConfig := mkRetryConfig {
  max_retries : nat;
  initial_delay : Z;
  max_delay : Z;
  backoff : BackoffStrategy;
  retryable_errors : list RetryableError
}.

Definition default_retry_config : RetryConfig :=
  {| max_retries := 3;
     initial_delay := Dur.from_millis 100;
     max_delay := Dur.from_secs 10;
     backoff := ExponentialJitter;
     retryable_errors := [Network; RateLimit; Timeout] |}.

Definition U32_MAX : Z := 2 ^ 32 - 1.

(** [2u32.saturating_pow(e)]: [2 ^ e] below 32, [u32::MAX] from 32 on. *)
Definition u32_saturating_pow2 (e : Z) : Z :=
  if e <? 32 then 2 ^ e else U32_MAX.

(** [attempt.saturating_sub(1) as u32] for a [usize] attempt. *)
Definition exponent_of (attempt : Z) : Z := Z.max (attempt - 1) 0 mod 2 ^ 32.

(** [fastrand::u64(0..range)]: [rnd] stands for the generator; its
    result is brought into [0..range). *)
Definition fastrand_u64 (rnd : Z -> Z) (range : Z) : Z := rnd range mod range.

(** [calculate_delay]; [None] is the panic of [Duration + Duration] on
    overflow in the jitter branch. *)
Definition calculate_delay (rnd : Z -> Z) (config : RetryConfig) (attempt : Z)
  : option Z :=
  let base_delay :=
    match backoff config with
    | Fixed => Some (initial_delay config)
    | Exponential =>
        let multiplier := u32_saturating_pow2 (exponent_of attempt) in
        Some (Dur.saturating_mul (initial_delay config) multiplier)
    | ExponentialJitter =>
        let multiplier := u32_saturating_pow2 (exponent_of attempt) in
        let base := Dur.saturating_mul (initial_delay config) multiplier in
        let jitter_range := (Dur.as_millis base mod 2 ^ 64) / 2 in
        let jitter := if 0 <? jitter_range then fastrand_u64 rnd jitter_range else 0 in
        Dur.checked_add base (Dur.from_millis jitter)
    end in
  option_map (fun b => Dur.min b (max_delay config)) base_delay.

(** [is_error_retryable], on the message [error.to_string()]. *)
Definition is_error_retryable (error : string) (config : RetryConfig) : bool :=
  let errs := retryable_errors config in
  if has errs All then true else
  let msg := Str.to_lowercase error in
  if has errs RateLimit
     && (Str.contains msg "rate limit" || Str.contains msg "429"
         || Str.contains msg "too many requests")
  then true else
  if has errs Timeout
     && (Str.contains msg "timeout" || Str.contains msg "timed out")
  then true else
  if has errs ServerError
     && (Str.contains msg "500" || Str.contains msg "502"
         || Str.contains msg "503" || Str.contains msg "504"
         || Str.contains msg "internal server error"
         || Str.contains msg "bad gateway"
         || Str.contains msg "service unavailable")
  then true else
  if has errs Network
     && (Str.contains msg "connection" || Str.contains msg "network"
         || Str.contains msg "dns" || Str.contains msg "resolve"
         || Str.contains msg "unreachable")
  then true else
  false.

Example delay_fixed_example :
  calculate_delay (fun _ => 0)
    {| max_retries := 3; initial_delay := Dur.from_millis 100;
       max_delay := Dur.from_secs 10; backoff := Fixed;
       retryable_errors := [] |} 5 = Some (Dur.from_millis 100).
Proof. reflexivity. Qed.

Example delay_exp_example :
  calculate_delay (fun _ => 0)
    {| max_retries := 3; initial_delay := Dur.from_millis 100;
       max_delay := Dur.from_secs 10; backoff := Exponential;
       retryable_errors := [] |} 4 = Some (Dur.from_millis 800).
Proof. reflexivity. Qed.

Example retryable_example :
  is_error_retryable "HTTP 429 Too Many" default_retry_config = true.
Proof. reflexivity. Qed.

End Retry.

(** ** JSON values ([serde_json::Value]) *)
Module Json.

Local Set Warnings "-register-all".

Inductive value :=
| Null
| Bool (b : bool)
| Number (n : Z)
| VString (s : string)
| Array (l : list value)
| Object (m : list (string * value)).

(** [serde_json::Map::insert]: an existing key keeps its place and gets
    the new value, a new key goes last. *)
Fixpoint map_insert (k : string) (v : value) (m : list (string * value))
  : list (string * value) :=
  match m with
  | [] => [(k, v)]
  | (k', v') :: m' =>
      if String.eqb k k' then (k, v) :: m' else (k', v') :: map_insert k v m'
  end.

(** [HashMap::get] / [Map::get]. *)
Fixpoint lookup (k : string) (m : list (string * value)) : option value :=
  match m with
  | [] => None
  | (k', v) :: m' => if String.eqb k k' then Some v else lookup k m'
  end.

(** [HashMap::extend]: every entry of [m2] inserted into [m1]. *)
Definition extend (m1 m2 : list (string * value)) : list (string * value) :=
  fold_left (fun acc kv => map_insert (fst kv) (snd kv) acc) m2 m1.

(** [i64::to_string]. *)
Definition z_to_string (n : Z) : string :=
  NilEmpty.string_of_int (Z.to_int n).

Definition hex_digit (n : nat) : ascii :=
  if (n <? 10)%nat then ascii_of_nat (48 + n) else ascii_of_nat (87 + n).

(** The escaping of [serde_json]'s string serializer. *)
Definition escape_char (c : ascii) : string :=
  let n := nat_of_ascii c in
  if (n =? 34)%nat then "\" ++ String c EmptyString
  else if (n =? 92)%nat then "\\"
  else if (n =? 8)%nat then "\b"
  else if (n =? 9)%nat then "\t"
  else if (n =? 10)%nat then "\n"
  else if (n =? 12)%nat then "\f"
  else if (n =? 13)%nat then "\r"
  else if (n <? 32)%nat then
    "\u00" ++ String (hex_digit (n / 16)) (String (hex_digit (n mod 16)) EmptyString)
  else String c EmptyString.

Fixpoint escape (s : string) : string :=
  match s with
  | EmptyString => EmptyString
  | String c s' => escape_char c ++ escape s'
  end.

Definition quote (s : string) : string :=
  String (ascii_of_nat 34) (escape s ++ String (ascii_of_nat 34) EmptyString).

Fixpoint join (l : list string) : string :=
  match l with
  | [] => EmptyString
  | [x] => x
  | x :: l' => x ++ "," ++ join l'
  end.

(** [serde_json::to_string] (compact form).  It cannot fail on a
    [Value], so the [map_err] branch of the source is never taken. *)
Fixpoint to_json (v : value) : string :=
  match v with
  | Null => "null"
  | Bool true => "true"
  | Bool false => "false"
  | Number n => z_to_string n
  | VString s => quote s
  | Array l => "[" ++ join (map to_json l) ++ "]"
  | Object m =>
      "{" ++ join (map (fun kv => quote (fst kv) ++ ":" ++ to_json (snd kv)) m) ++ "}"
  end.

Example to_json_example :
  to_json (Object [("a", Number 1); ("b", Array [VString "x"; Null])])
  = "{" ++ quote "a" ++ ":1," ++ quote "b" ++ ":[" ++ quote "x" ++ ",null]}".
Proof. reflexivity. Qed.

End Json.

(** ** Variable substitution ([DefaultSkillExecutor::substitute_value]) *)
Module Subst.
Import Json.

(** [format!("{{{{{}}}}}", key)]. *)
Definition placeholder (key : string) : string := "{{" ++ key ++ "}}".

(** The replacement text used by the interpolation. *)
Definition display (v : value) : string :=
  match v with
  | VString s => s
  | Null => "null"
  | Bool b => if b then "true" else "false"
  | Number n => z_to_string n
  | _ => to_json v
  end.

(** The interpolation loop: for each variable, in the map's iteration
    order, every occurrence of its placeholder in the current text is
    replaced. *)
Definition interpolate (variables : list (string * value)) (s : string) : string :=
  fold_left
    (fun result kv =>
       let ph := placeholder (fst kv) in
       if Str.contains result ph then Str.replace result ph (display (snd kv))
       else result)
    variables s.

(** The whole-string test: the variable named by a string whose trimmed
    form is [{{name}}], when that variable is bound. *)
Definition whole_placeholder (variables : list (string * value)) (s : string)
  : option value :=
  let trimmed := Str.trim s in
  if Str.prefixb "{{" trimmed && Str.ends_with trimmed "}}" then
    let inner := substring 2 (length trimmed - 4) trimmed in
    if negb (Str.contains inner "{{") && negb (Str.contains inner "}}") then
      lookup (Str.trim inner) variables
    else None
  else None.

(** [substitute_value]; it never returns [Err] since [to_json] cannot
    fail. *)
Fixpoint substitute_value (variables : list (string * value)) (v : value) : value :=
  match v with
  | VString s =>
      match whole_placeholder variables s with
      | Some var_value => var_value
      | None => VString (interpolate variables s)
      end
  | Array arr => Array (map (substitute_value variables) arr)
  | Object obj =>
      Object ((fix go (new_obj obj : list (string * value)) :=
                 match obj with
                 | [] => new_obj
                 | (k, x) :: obj' => go (map_insert k (substitute_value variables x) new_obj) obj'
                 end) [] obj)
  | _ => v
  end.

Example subst_raw_example :
  substitute_value [("v", Object [("a", Number 1)])] (Object [("x", VString "{{v}}")])
  = Object [("x", Object [("a", Number 1)])].
Proof. reflexivity. Qed.

Example subst_interp_example :
  substitute_value [("v", Object [("a", Number 1)])] (Object [("x", VString "val={{v}}")])
  = Object [("x", VString ("val={" ++ quote "a" ++ ":1}"))].
Proof. reflexivity. Qed.

Example subst_padded_example :
  substitute_value [("v", Number 7); ("w", Bool true)] (VString "  {{ v }} ")
  = Number 7.
Proof. reflexivity. Qed.

End Subst.

(** ** The default executor ([default_executor.rs]) *)
Module Exec.
Import Json Retry Subst.

(** *** Configuration and data ([config.rs], [lib.rs], [executor.rs],
    [thulp-core/src/tool.rs]) *)

Inductive TimeoutAction := Fail | Skip | Partial.

Record TimeoutConfig := mkTimeoutConfig {
  skill_timeout : Z;
  step_timeout : Z;
  tool_timeout : Z;
  timeout_action : TimeoutAction
}.

Definition default_timeout_config : TimeoutConfig :=
  {| skill_timeout := Dur.from_secs 300;
     step_timeout := Dur.from_secs 60;
     tool_timeout := Dur.from_secs 30;
     timeout_action := Fail |}.

Record ExecutionConfig := mkExecutionConfig {
  timeout : TimeoutConfig;
  retry : RetryConfig
}.

Definition default_execution_config : ExecutionConfig :=
  {| timeout := default_timeout_config; retry := default_retry_config |}.

(** [SkillStep]; [step_max_retries] is its [max_retries] field. *)
Record SkillStep := mkSkillStep {
  name : string;
  tool : string;
  arguments : value;
  continue_on_error : bool;
  timeout_secs : option Z;
  step_max_retries : option nat
}.

Record Skill := mkSkill {
  skill_name : string;
  description : string;
  inputs : list string;
  steps : list SkillStep
}.

Record ToolCall := mkToolCall { call_tool : string; call_arguments : value }.

Record ToolResult := mkToolResult {
  tr_success : bool;
  tr_data : option value;
  tr_error : option string;
  tr_duration_ms : option Z
}.

(** [ToolResult::failure]. *)
Definition ToolResult_failure (msg : string) : ToolResult :=
  {| tr_success := false; tr_data := None; tr_error := Some msg; tr_duration_ms := None |}.

Record StepResult := mkStepResult {
  step_name : string;
  sr_success : bool;
  sr_output : option value;
  sr_error : option string;
  sr_duration_ms : Z;
  retry_attempts : nat
}.

(** [StepResult::failure]. *)
Definition StepResult_failure (step : string) (err : string) (duration_ms : Z) : StepResult :=
  {| step_name := step; sr_success := false; sr_output := None; sr_error := Some err;
     sr_duration_ms := duration_ms; retry_attempts := 0 |}.

Record SkillResult := mkSkillResult {
  sk_success : bool;
  step_results : list (string * ToolResult);
  sk_output : option value;
  sk_error : option string
}.

Inductive SkillError :=
| Execution (msg : string)
| NotFound (msg : string)
| InvalidConfig (msg : string)
| StepTimeout (step : string) (duration : Z)
| SkillTimeout (duration : Z)
| RetryExhausted (step : string) (attempts : nat) (message : string).

(** *** [Display] texts *)

Fixpoint strip_trailing_zeros_rev (s : string) : string :=
  match s with
  | String c s' => if Ascii.eqb c "0"%char then strip_trailing_zeros_rev s' else s
  | EmptyString => EmptyString
  end.

Fixpoint zeros (n : nat) : string :=
  match n with O => EmptyString | S n' => String "0"%char (zeros n') end.

(** The fractional digits of [Duration]'s [Debug] output. *)
Definition frac_digits (frac : Z) (width : nat) : string :=
  let s := z_to_string frac in
  Str.rev_str (strip_trailing_zeros_rev
                 (Str.rev_str (zeros (width - String.length s) ++ s))).

Definition fmt_decimal (int frac : Z) (width : nat) (unit : string) : string :=
  z_to_string int
  ++ (if frac =? 0 then EmptyString else "." ++ frac_digits frac width)
  ++ unit.

(** [<Duration as Debug>::fmt] without a precision. *)
Definition duration_debug (d : Z) : string :=
  if 1000000000 <=? d then fmt_decimal (d / 1000000000) (d mod 1000000000) 9 "s"
  else if 1000000 <=? d then fmt_decimal (d / 1000000) (d mod 1000000) 6 "ms"
  else if 1000 <=? d then fmt_decimal (d / 1000) (d mod 1000) 3 "µs"
  else fmt_decimal d 0 0 "ns".

(** The [thiserror] messages of [SkillError]. *)
Definition error_to_string (e : SkillError) : string :=
  match e with
  | Execution m => "Execution error: " ++ m
  | NotFound m => "Skill not found: " ++ m
  | InvalidConfig m => "Invalid configuration: " ++ m
  | StepTimeout s d => "Step '" ++ s ++ "' timed out after " ++ duration_debug d
  | SkillTimeout d => "Skill timed out after " ++ duration_debug d
  | RetryExhausted s a m =>
      "Step '" ++ s ++ "' failed after " ++ z_to_string (Z.of_nat a) ++ " attempts: " ++ m
  end.

Example duration_debug_examples :
  duration_debug (Dur.from_secs 300) = "300s" /\
  duration_debug (Dur.from_millis 1500) = "1.5s" /\
  duration_debug (Dur.from_millis 10) = "10ms".
Proof. repeat split; reflexivity. Qed.

(** *** Run-time model

    The [Transport] answers the [n]-th call of the run with the time it
    takes (in nanoseconds) and its result; [rng] answers the [n]-th draw of
    [fastrand].  Hooks are observed through the list of the events they
    receive.  The state carries the [outputs] map of the
    [ExecutionContext] (its inputs and config are read-only here). *)

Inductive TransportResponse :=
| TOk (r : ToolResult)
| TErr (msg : string).

Definition Transport := nat -> ToolCall -> Z * TransportResponse.

Inductive event :=
| BeforeSkill (skill : string)
| AfterSkill (result : SkillResult)
| BeforeStep (step : string) (index : nat)
| AfterStep (step : string) (index : nat) (result : StepResult)
| OnRetry (step : string) (attempt : nat) (msg : string)
| OnError (e : SkillError)
| OnTimeout (step : string) (ms : Z).

Record State := mkState {
  outputs : list (string * value);
  trace : list event;
  clock : Z;
  calls : nat;
  draws : nat
}.

(** [Done]: the computation went on; [Cut]: the enclosing
    [tokio::time::timeout] of the skill fired while it was suspended;
    [Panicked]: it panicked. *)
Inductive outcome (A : Type) :=
| Done (a : A)
| Cut
| Panicked.
Arguments Done {A} a.
Arguments Cut {A}.
Arguments Panicked {A}.

Definition M (A : Type) : Type := State -> State * outcome A.

Definition ret {A} (a : A) : M A := fun st => (st, Done a).

Definition bind {A B} (c : M A) (k : A -> M B) : M B :=
  fun st =>
    match c st with
    | (st', Done a) => k a st'
    | (st', Cut) => (st', Cut)
    | (st', Panicked) => (st', Panicked)
    end.

Notation "x <- c1 ;; c2" := (bind c1 (fun x => c2))
  (at level 61, c1 at next level, right associativity).
Notation "c1 ;; c2" := (bind c1 (fun _ => c2))
  (at level 61, right associativity).

Definition emit (ev : event) : M unit :=
  fun st => ({| outputs := outputs st; trace := (trace st ++ [ev])%list; clock := clock st;
                calls := calls st; draws := draws st |}, Done tt).

Definition now : M Z := fun st => (st, Done (clock st)).

Definition panic {A} : M A := fun st => (st, Panicked).

(** [context.set_output(name, value)]. *)
Definition set_output (step : string) (v : value) : M unit :=
  fun st => ({| outputs := map_insert step v (outputs st); trace := trace st;
                clock := clock st; calls := calls st; draws := draws st |}, Done tt).

(** [context.variables()]: the inputs extended with the outputs. *)
Definition variables (ctx_inputs : list (string * value)) : M (list (string * value)) :=
  fun st => (st, Done (extend ctx_inputs (outputs st))).

Definition advance (st : State) (t : Z) : State :=
  {| outputs := outputs st; trace := trace st; clock := t;
     calls := calls st; draws := draws st |}.

(** An await point that resumes after [d]; under a skill deadline it is
    cut off when the deadline comes first. *)
Definition suspend (deadline : option Z) (d : Z) : M unit :=
  fun st =>
    match deadline with
    | Some dl =>
        if clock st + d <=? dl then (advance st (clock st + d), Done tt)
        else (advance st dl, Cut)
    | None => (advance st (clock st + d), Done tt)
    end.

(** [tokio::time::timeout(timeout, self.transport.call(tool_call))]:
    [None] is the [Elapsed] error. *)
Definition call_with_timeout (transport : Transport) (deadline : option Z)
    (timeout : Z) (call : ToolCall) : M (option TransportResponse) :=
  fun st =>
    let (d0, r) := transport (calls st) call in
    let d := Z.max 0 d0 in
    let st1 := {| outputs := outputs st; trace := trace st; clock := clock st;
                  calls := S (calls st); draws := draws st |} in
    if d <=? timeout then bind (suspend deadline d) (fun _ => ret (Some r)) st1
    else bind (suspend deadline timeout) (fun _ => ret None) st1.

(** [calculate_delay(retry_config, attempts)] with the next random draw. *)
Definition next_delay (rng : nat -> Z -> Z) (rc : RetryConfig) (attempts : nat) : M Z :=
  fun st =>
    match calculate_delay (rng (draws st)) rc (Z.of_nat attempts) with
    | Some d => ({| outputs := outputs st; trace := trace st; clock := clock st;
                    calls := calls st; draws := S (draws st) |}, Done d)
    | None => (st, Panicked)
    end.

Definition catch_cut {A} (c : M A) (h : M A) : M A :=
  fun st =>
    match c st with
    | (st', Cut) => h st'
    | r => r
    end.

Section Executor.
Variable transport : Transport.
Variable rng : nat -> Z -> Z.

(** [execute_step_with_retry_timeout].  [left] counts the retries still
    allowed, so that [left = 0] exactly when [attempts > max_retries]
    after the increment; its [O] case is never reached. *)
Fixpoint attempt_loop (deadline : option Z) (tool_call : ToolCall) (step : SkillStep)
    (timeout : Z) (retry_config : RetryConfig) (left attempts : nat)
    : M (ToolResult * nat + SkillError) :=
  let attempts := S attempts in
  result <- call_with_timeout transport deadline timeout tool_call ;;
  match result with
  | Some (TOk tool_result) => ret (inl (tool_result, attempts - 1)%nat)
  | Some (TErr error_msg) =>
      if (max_retries retry_config <? attempts)%nat
         || negb (is_error_retryable error_msg retry_config)
      then ret (inr (RetryExhausted (name step) attempts error_msg))
      else
        emit (OnRetry (name step) attempts error_msg) ;;
        delay <- next_delay rng retry_config attempts ;;
        suspend deadline delay ;;
        match left with
        | O => ret (inr (RetryExhausted (name step) attempts error_msg))
        | S left' => attempt_loop deadline tool_call step timeout retry_config left' attempts
        end
  | None =>
      emit (OnTimeout (name step) (Dur.as_millis timeout mod 2 ^ 64)) ;;
      if (max_retries retry_config <? attempts)%nat
         || negb (has (retryable_errors retry_config) Timeout)
      then ret (inr (StepTimeout (name step) timeout))
      else
        emit (OnRetry (name step) attempts "timeout") ;;
        delay <- next_delay rng retry_config attempts ;;
        suspend deadline delay ;;
        match left with
        | O => ret (inr (StepTimeout (name step) timeout))
        | S left' => attempt_loop deadline tool_call step timeout retry_config left' attempts
        end
  end.

(** The step's timeout: [step.timeout_secs] or the config's. *)
Definition step_timeout_of (config : ExecutionConfig) (step : SkillStep) : Z :=
  match timeout_secs step with
  | Some s => Dur.from_secs s
  | None => step_timeout (timeout config)
  end.

(** [RetryConfig { max_retries, ..config.retry.clone() }]. *)
Definition step_retry_config (config : ExecutionConfig) (step : SkillStep) : RetryConfig :=
  let rc := retry config in
  {| max_retries := match step_max_retries step with
                    | Some m => m
                    | None => max_retries rc
                    end;
     initial_delay := initial_delay rc;
     max_delay := max_delay rc;
     backoff := backoff rc;
     retryable_errors := retryable_errors rc |}.

Definition prepare_call (ctx_inputs : list (string * value)) (step : SkillStep) : M ToolCall :=
  vars <- variables ctx_inputs ;;
  ret {| call_tool := tool step; call_arguments := substitute_value vars (arguments step) |}.

(** [execute_steps]: the steps of [skill.steps] from [index] on;
    [total] is [skill.steps.len()]. *)
Fixpoint execute_steps (deadline : option Z) (config : ExecutionConfig)
    (ctx_inputs : list (string * value)) (total : nat) (steps : list SkillStep)
    (index : nat) (step_results : list (string * ToolResult))
    : M (SkillResult + SkillError) :=
  match steps with
  | [] =>
      ret (inl {| sk_success := true; step_results := step_results;
                  sk_output := None; sk_error := None |})
  | step :: rest =>
      let step_timeout := step_timeout_of config step in
      let retry_config := step_retry_config config step in
      tool_call <- prepare_call ctx_inputs step ;;
      emit (BeforeStep (name step) index) ;;
      start <- now ;;
      result <- attempt_loop deadline tool_call step step_timeout retry_config
                  (max_retries retry_config) 0 ;;
      finish <- now ;;
      let duration_ms := Dur.as_millis (finish - start) in
      match result with
      | inl (tool_result, attempts) =>
          emit (AfterStep (name step) index
                  {| step_name := name step; sr_success := true;
                     sr_output := tr_data tool_result; sr_error := None;
                     sr_duration_ms := duration_ms; retry_attempts := attempts |}) ;;
          let step_results := (step_results ++ [(name step, tool_result)])%list in
          set_output (name step)
            (match tr_data tool_result with Some d => d | None => Null end) ;;
          if (List.length step_results =? total)%nat then
            ret (inl {| sk_success := true; step_results := step_results;
                        sk_output := tr_data tool_result; sk_error := None |})
          else execute_steps deadline config ctx_inputs total rest (S index) step_results
      | inr e =>
          emit (AfterStep (name step) index
                  (StepResult_failure (name step) (error_to_string e) duration_ms)) ;;
          emit (OnError e) ;;
          if continue_on_error step then
            execute_steps deadline config ctx_inputs total rest (S index)
              ((step_results ++ [(name step, ToolResult_failure (error_to_string e))])%list)
          else
            match timeout_action (timeout config) with
            | Skip =>
                execute_steps deadline config ctx_inputs total rest (S index)
                  ((step_results ++ [(name step, ToolResult_failure (error_to_string e))])%list)
            | Partial =>
                ret (inl {| sk_success := false; step_results := step_results;
                            sk_output := None; sk_error := Some (error_to_string e) |})
            | Fail => ret (inr e)
            end
      end
  end.

(** The result given to [after_skill] when [execute] fails. *)
Definition failure_result (e : SkillError) : SkillResult :=
  {| sk_success := false; step_results := []; sk_output := None;
     sk_error := Some (error_to_string e) |}.

(** The answer of an expired skill timeout. *)
Definition on_skill_timeout (config : ExecutionConfig) : M (SkillResult + SkillError) :=
  let skill_timeout := skill_timeout (timeout config) in
  match timeout_action (timeout config) with
  | Fail =>
      let error := SkillTimeout skill_timeout in
      emit (OnError error) ;;
      ret (inr error)
  | Skip | Partial =>
      ret (inl {| sk_success := false; step_results := []; sk_output := None;
                  sk_error := Some ("Skill timed out after " ++ duration_debug skill_timeout) |})
  end.

(** [SkillExecutor::execute] for [DefaultSkillExecutor]; [config] is
    [context.config()] and [ctx_inputs] the context's inputs. *)
Definition execute (skill : Skill) (config : ExecutionConfig)
    (ctx_inputs : list (string * value)) : M (SkillResult + SkillError) :=
  emit (BeforeSkill (skill_name skill)) ;;
  start <- now ;;
  let deadline := Some (start + skill_timeout (timeout config)) in
  skill_result <-
    catch_cut
      (execute_steps deadline config ctx_inputs (List.length (steps skill)) (steps skill) 0 [])
      (on_skill_timeout config) ;;
  match skill_result with
  | inl result =>
      emit (AfterSkill result) ;;
      ret (inl result)
  | inr e =>
      emit (OnError e) ;;
      emit (AfterSkill (failure_result e)) ;;
      ret (inr e)
  end.

(** [SkillExecutor::execute_step] for [DefaultSkillExecutor]: no skill
    deadline. *)
Definition execute_step (step : SkillStep) (config : ExecutionConfig)
    (ctx_inputs : list (string * value)) : M (StepResult + SkillError) :=
  let step_timeout := step_timeout_of config step in
  let retry_config := step_retry_config config step in
  tool_call <- prepare_call ctx_inputs step ;;
  emit (BeforeStep (name step) 0) ;;
  start <- now ;;
  result <- attempt_loop None tool_call step step_timeout retry_config
              (max_retries retry_config) 0 ;;
  finish <- now ;;
  let duration_ms := Dur.as_millis (finish - start) in
  step_result <-
    match result with
    | inl (tool_result, retry_attempts) =>
        match tr_data tool_result with
        | Some d => set_output (name step) d
        | None => ret tt
        end ;;
        let is_success := tr_success tool_result in
        ret {| step_name := name step; sr_success := is_success;
               sr_output := tr_data tool_result;
               sr_error := if is_success then None else tr_error tool_result;
               sr_duration_ms := duration_ms; retry_attempts := retry_attempts |}
    | inr e =>
        emit (OnError e) ;;
        ret {| step_name := name step; sr_success := false; sr_output := None;
               sr_error := Some (error_to_string e); sr_duration_ms := duration_ms;
               retry_attempts := 0 |}
    end ;;
  emit (AfterStep (name step) 0 step_result) ;;
  if sr_success step_result then ret (inl step_result)
  else ret (inr (Execution (match sr_error step_result with
                            | Some m => m
                            | None => EmptyString
                            end))).

End Executor.

Definition init_state : State :=
  {| outputs := []; trace := []; clock := 0; calls := 0; draws := 0 |}.

End Exec.

(** ** The generic retry loop ([retry.rs]: [with_retry], [RetryError]) *)
Module RetryLoop.
Import Retry.

Inductive RetryError (E : Type) :=
| Exhausted (attempts : nat) (last_error : E)
| NotRetryable (e : E).
Arguments Exhausted {E} attempts last_error.
Arguments NotRetryable {E} e.

(** [RetryError::is_exhausted]. *)
Definition is_exhausted {E} (err : RetryError E) : bool :=
  match err with Exhausted _ _ => true | NotRetryable _ => false end.

(** [RetryError::attempts]. *)
Definition attempts {E} (err : RetryError E) : option nat :=
  match err with Exhausted a _ => Some a | NotRetryable _ => None end.

(** [RetryError::into_inner]. *)
Definition into_inner {E} (err : RetryError E) : E :=
  match err with Exhausted _ e => e | NotRetryable e => e end.

Section Loop.
Context {T E : Type}.
Variable config : RetryConfig.
Variable is_retryable : E -> bool.
(** [operation n] is the answer of the [n]-th call of [operation()]
    (counted from 0); [rnd n] is the generator used by the [n]-th call of
    [calculate_delay] (counted from 1). *)
Variable operation : nat -> T + E.
Variable rnd : nat -> Z -> Z.

(** The loop of [with_retry] after [attempt] failed calls.  The result
    lists the delays slept, in order, with the final answer; [None] is a
    panic of [calculate_delay].  [left] counts the retries still allowed
    ([attempt + left = max_retries] at every entry), so its [O] case is
    never reached. *)
Fixpoint retry_loop (left attempt : nat) : option (list Z * (T + RetryError E)) :=
  match operation attempt with
  | inl result => Some ([], inl result)
  | inr e =>
      let attempt := S attempt in
      if (max_retries config <? attempt)%nat then Some ([], inr (Exhausted attempt e))
      else if negb (is_retryable e) then Some ([], inr (NotRetryable e))
      else
        match calculate_delay (rnd attempt) config (Z.of_nat attempt) with
        | None => None
        | Some delay =>
            match left with
            | O => Some ([], inr (Exhausted attempt e))
            | S left' =>
                option_map (fun r => (delay :: fst r, snd r)) (retry_loop left' attempt)
            end
        end
  end.

(** [with_retry]. *)
Definition with_retry : option (list Z * (T + RetryError E)) :=
  retry_loop (max_retries config) 0.

End Loop.

(** [with_retry_default]: errors are classified by [is_error_retryable] on
    their message. *)
Definition with_retry_default {T} (config : RetryConfig) (operation : nat -> T + string)
    (rnd : nat -> Z -> Z) : option (list Z * (T + RetryError string)) :=
  with_retry config (fun e => is_error_retryable e config) operation rnd.

End RetryLoop.

(** ** The execution context ([executor.rs]: [ExecutionContext]) *)
Module Context.
Import Json.

Record ExecutionContext := mkExecutionContext {
  inputs : list (string * value);
  outputs : list (string * value);
  config : Exec.ExecutionConfig;
  metadata : list (string * value)
}.

(** [ExecutionContext::new]. *)
Definition new : ExecutionContext :=
  {| inputs := []; outputs := []; config := Exec.default_execution_config; metadata := [] |}.

(** [ExecutionContext::from_inputs]. *)
Definition from_inputs (inputs : list (string * value)) : ExecutionContext :=
  {| inputs := inputs; outputs := []; config := Exec.default_execution_config;
     metadata := [] |}.

(** [ExecutionContext::with_input]. *)
Definition with_input (c : ExecutionContext) (key : string) (v : value) : ExecutionContext :=
  {| inputs := map_insert key v (inputs c); outputs := outputs c; config := config c;
     metadata := metadata c |}.

(** [ExecutionContext::get_input]. *)
Definition get_input (c : ExecutionContext) (key : string) : option value :=
  lookup key (inputs c).

(** [ExecutionContext::get_output]. *)
Definition get_output (c : ExecutionContext) (step_name : string) : option value :=
  lookup step_name (outputs c).

(** [ExecutionContext::set_output]. *)
Definition set_output (c : ExecutionContext) (step_name : string) (v : value)
  : ExecutionContext :=
  {| inputs := inputs c; outputs := map_insert step_name v (outputs c); config := config c;
     metadata := metadata c |}.

(** [ExecutionContext::variables]: the inputs, extended with the outputs. *)
Definition variables (c : ExecutionContext) : list (string * value) :=
  extend (inputs c) (outputs c).

(** [ExecutionContext::clear_outputs]. *)
Definition clear_outputs (c : ExecutionContext) : ExecutionContext :=
  {| inputs := inputs c; outputs := []; config := config c; metadata := metadata c |}.

End Context.

(** ** The skill registry ([lib.rs]: [SkillRegistry]) *)
Module Registry.
Import Exec.

(** [HashMap::insert] on an association list: an existing key keeps its
    place and gets the new value, a new key goes last. *)
Fixpoint insert {A} (k : string) (v : A) (m : list (string * A)) : list (string * A) :=
  match m with
  | [] => [(k, v)]
  | (k', v') :: m' => if String.eqb k k' then (k, v) :: m' else (k', v') :: insert k v m'
  end.

(** [HashMap::get]. *)
Fixpoint get_entry {A} (k : string) (m : list (string * A)) : option A :=
  match m with
  | [] => None
  | (k', v) :: m' => if String.eqb k k' then Some v else get_entry k m'
  end.

(** [HashMap::remove]: the removed value and the remaining map. *)
Fixpoint remove {A} (k : string) (m : list (string * A)) : option A * list (string * A) :=
  match m with
  | [] => (None, [])
  | (k', v) :: m' =>
      if String.eqb k k' then (Some v, m')
      else let (r, m'') := remove k m' in (r, (k', v) :: m'')
  end.

Record SkillRegistry := mkSkillRegistry { skills : list (string * Skill) }.

(** [SkillRegistry::new]. *)
Definition new : SkillRegistry := {| skills := [] |}.

(** [SkillRegistry::register]. *)
Definition register (r : SkillRegistry) (skill : Skill) : SkillRegistry :=
  {| skills := insert (skill_name skill) skill (skills r) |}.

(** [SkillRegistry::get]. *)
Definition get (r : SkillRegistry) (n : string) : option Skill := get_entry n (skills r).

(** [SkillRegistry::list]. *)
Definition list_names (r : SkillRegistry) : list string := map fst (skills r).

(** [SkillRegistry::unregister]. *)
Definition unregister (r : SkillRegistry) (n : string) : option Skill * SkillRegistry :=
  let (removed, rest) := remove n (skills r) in (removed, {| skills := rest |}).

End Registry.

(** * Proofs *)

(** ** Retry policy *)
Module RetryProofs.
Import Retry.

Lemma exponent_of_small (attempt : Z) :
  1 <= attempt <= 32 -> exponent_of attempt = attempt - 1.
Proof.
  intros H. unfold exponent_of.
  rewrite Z.max_l by lia. apply Z.mod_small.
  change (2 ^ 32) with 4294967296. lia.
Qed.

Lemma pow2_small (e : Z) : 0 <= e < 32 -> u32_saturating_pow2 e = 2 ^ e.
Proof.
  intros H. unfold u32_saturating_pow2. destruct (Z.ltb_spec e 32); [reflexivity | lia].
Qed.

Lemma exponential_delay_value (rnd : Z -> Z) (config : RetryConfig) (attempt : Z) :
  backoff config = Exponential ->
  0 <= max_delay config <= Dur.DURATION_MAX ->
  1 <= attempt <= 32 ->
  calculate_delay rnd config attempt
  = Some (Z.min (initial_delay config * 2 ^ (attempt - 1)) (max_delay config)).
Proof.
  intros Hb Hm Ha. unfold calculate_delay. rewrite Hb.
  rewrite exponent_of_small by lia. rewrite pow2_small by lia.
  cbn [option_map]. unfold Dur.saturating_mul, Dur.min.
  destruct (Z.ltb_spec Dur.DURATION_MAX (initial_delay config * 2 ^ (attempt - 1)));
    f_equal; lia.
Qed.

(** A configuration with a 1ns initial delay and the default 10s cap. *)
Definition exp_1ns_config : RetryConfig :=
  {| max_retries := 3; initial_delay := 1; max_delay := Dur.from_secs 10;
     backoff := Exponential; retryable_errors := [] |}.

(** C5 (counterexample): the doubling recurrence fails at attempt 32 below
    the cap: the [u32] multiplier saturates at [2^32 - 1], so
    [calculate_delay(33)] is 4294967295ns while
    [min(max_delay, 2 * calculate_delay(32))] is 4294967296ns. *)
Lemma C5_exponential_recurrence_counterexample :
  calculate_delay (fun _ => 0) exp_1ns_config 32 = Some 2147483648 /\
  calculate_delay (fun _ => 0) exp_1ns_config 33 = Some 4294967295 /\
  calculate_delay (fun _ => 0) exp_1ns_config (32 + 1)
  <> option_map (fun d => Z.min (max_delay exp_1ns_config) (2 * d))
       (calculate_delay (fun _ => 0) exp_1ns_config 32).
Proof. split; [reflexivity | split; [reflexivity | discriminate]]. Qed.

(** C5 (amended): for Exponential backoff and 1 <= attempt <= 31, the delay
    of [attempt] is [initial_delay * 2^(attempt-1)] capped at [max_delay],
    and the delay of [attempt+1] is [min(max_delay, 2 * delay(attempt))]. *)
Theorem C5_exponential_doubling (rnd : Z -> Z) (config : RetryConfig) (attempt : Z) :
  backoff config = Exponential ->
  0 <= initial_delay config ->
  0 <= max_delay config <= Dur.DURATION_MAX ->
  1 <= attempt <= 31 ->
  exists d,
    calculate_delay rnd config attempt = Some d /\
    d = Z.min (initial_delay config * 2 ^ (attempt - 1)) (max_delay config) /\
    calculate_delay rnd config (attempt + 1) = Some (Z.min (max_delay config) (2 * d)).
Proof.
  intros Hb Hi Hm Ha.
  exists (Z.min (initial_delay config * 2 ^ (attempt - 1)) (max_delay config)).
  split; [apply exponential_delay_value; auto; lia|].
  split; [reflexivity|].
  rewrite exponential_delay_value by (auto; lia).
  replace (attempt + 1 - 1) with (Z.succ (attempt - 1)) by lia.
  rewrite Z.pow_succ_r by lia.
  assert (0 <= 2 ^ (attempt - 1)) by (apply Z.pow_nonneg; lia).
  replace (initial_delay config * (2 * 2 ^ (attempt - 1)))
    with (2 * (initial_delay config * 2 ^ (attempt - 1))) by ring.
  assert (0 <= initial_delay config * 2 ^ (attempt - 1)) by (apply Z.mul_nonneg_nonneg; lia).
  f_equal. lia.
Qed.

Lemma C5_exponential_doubling_witness :
  exists d,
    calculate_delay (fun _ => 0) exp_1ns_config 3 = Some d /\
    d = Z.min (initial_delay exp_1ns_config * 2 ^ (3 - 1)) (max_delay exp_1ns_config) /\
    calculate_delay (fun _ => 0) exp_1ns_config (3 + 1)
    = Some (Z.min (max_delay exp_1ns_config) (2 * d)).
Proof.
  apply (C5_exponential_doubling (fun _ => 0) exp_1ns_config 3);
    [reflexivity | cbn; lia | cbn; unfold Dur.DURATION_MAX; lia | lia].
Defined.

(** A Fixed configuration whose initial delay exceeds its cap. *)
Definition fixed_over_cap_config : RetryConfig :=
  {| max_retries := 3; initial_delay := Dur.from_secs 20; max_delay := Dur.from_secs 10;
     backoff := Fixed; retryable_errors := [] |}.

(** C6 (counterexample): with [initial_delay] = 20s above [max_delay] = 10s,
    the Fixed delay of attempt 1 is 10s, not [initial_delay]. *)
Lemma C6_fixed_delay_counterexample :
  calculate_delay (fun _ => 0) fixed_over_cap_config 1 = Some (Dur.from_secs 10) /\
  calculate_delay (fun _ => 0) fixed_over_cap_config 1
  <> Some (initial_delay fixed_over_cap_config).
Proof. split; [reflexivity | discriminate]. Qed.

(** C6 (amended): for Fixed backoff the delay of every attempt is the
    constant [min(initial_delay, max_delay)]. *)
Theorem C6_fixed_delay_constant (rnd : Z -> Z) (config : RetryConfig) (attempt : Z) :
  backoff config = Fixed ->
  calculate_delay rnd config attempt
  = Some (Z.min (initial_delay config) (max_delay config)).
Proof. intros Hb. unfold calculate_delay. rewrite Hb. reflexivity. Qed.

Lemma C6_fixed_delay_constant_witness :
  calculate_delay (fun _ => 0) fixed_over_cap_config 7
  = Some (Z.min (initial_delay fixed_over_cap_config) (max_delay fixed_over_cap_config)).
Proof. apply (C6_fixed_delay_constant (fun _ => 0) fixed_over_cap_config 7). reflexivity. Defined.

Lemma prefix_429_lowercase (s : string) :
  Str.prefixb "429" s = true -> Str.prefixb "429" (Str.to_lowercase s) = true.
Proof.
  intros H.
  destruct s as [|a [|b [|c s]]]; cbn [Str.prefixb] in H;
    rewrite ?andb_false_r in H; try discriminate.
  rewrite !andb_true_iff in H. destruct H as (Ha & Hb & Hc & _).
  apply Ascii.eqb_eq in Ha, Hb, Hc. subst. reflexivity.
Qed.

Lemma contains_429_lowercase (s : string) :
  Str.contains s "429" = true -> Str.contains (Str.to_lowercase s) "429" = true.
Proof.
  induction s as [|c s IH]; [discriminate|].
  cbn [Str.contains Str.to_lowercase]. rewrite !orb_true_iff.
  intros [H|H]; [left; apply (prefix_429_lowercase (String c s)); exact H | right; auto].
Qed.

(** Whether an enabled category other than RateLimit and All has a keyword
    in the lowercased message [m] (the vocabularies of spec section 4.3). *)
Definition other_category_match (config : RetryConfig) (m : string) : bool :=
  let errs := retryable_errors config in
  (has errs Timeout && (Str.contains m "timeout" || Str.contains m "timed out"))
  || (has errs ServerError
      && (Str.contains m "500" || Str.contains m "502" || Str.contains m "503"
          || Str.contains m "504" || Str.contains m "internal server error"
          || Str.contains m "bad gateway" || Str.contains m "service unavailable"))
  || (has errs Network
      && (Str.contains m "connection" || Str.contains m "network" || Str.contains m "dns"
          || Str.contains m "resolve" || Str.contains m "unreachable")).

Lemma if_true_else (b c : bool) : (if b then true else c) = b || c.
Proof. destruct b; reflexivity. Qed.

Definition timeout_only_config : RetryConfig :=
  {| max_retries := 3; initial_delay := Dur.from_millis 100; max_delay := Dur.from_secs 10;
     backoff := Fixed; retryable_errors := [Timeout] |}.

(** C7 (counterexample): "429 timeout" is retryable under [Timeout] alone,
    with neither RateLimit nor All enabled. *)
Lemma C7_429_counterexample :
  Str.contains "429 timeout" "429" = true /\
  is_error_retryable "429 timeout" timeout_only_config = true /\
  has (retryable_errors timeout_only_config) RateLimit = false /\
  has (retryable_errors timeout_only_config) All = false.
Proof. repeat split; reflexivity. Qed.

(** C7 (amended): a message containing "429" is retryable iff RateLimit or
    All is enabled, or another enabled category (Timeout, ServerError,
    Network) also has one of its keywords in the message. *)
Theorem C7_429_retryable (msg : string) (config : RetryConfig) :
  Str.contains msg "429" = true ->
  is_error_retryable msg config = true <->
  (has (retryable_errors config) All = true
   \/ has (retryable_errors config) RateLimit = true
   \/ other_category_match config (Str.to_lowercase msg) = true).
Proof.
  intros H. apply contains_429_lowercase in H.
  unfold is_error_retryable, other_category_match. cbv zeta.
  rewrite !if_true_else, H, !orb_true_r, orb_false_r.
  destruct (has (retryable_errors config) All); [cbn; tauto|].
  destruct (has (retryable_errors config) RateLimit); [cbn; tauto|].
  cbn [orb andb].
  destruct (has (retryable_errors config) Timeout && _),
           (has (retryable_errors config) ServerError && _),
           (has (retryable_errors config) Network && _);
    cbn; intuition discriminate.
Qed.

Lemma C7_429_retryable_witness :
  is_error_retryable "HTTP 429" default_retry_config = true <->
  (has (retryable_errors default_retry_config) All = true
   \/ has (retryable_errors default_retry_config) RateLimit = true
   \/ other_category_match default_retry_config (Str.to_lowercase "HTTP 429") = true).
Proof. apply (C7_429_retryable "HTTP 429" default_retry_config). reflexivity. Defined.

End RetryProofs.

(** ** Variable substitution *)
Module SubstProofs.
Import Json Subst.









Section Replace.
Variable k d : string.
Let pat := placeholder k.








End Replace.

(** *** Templates: literal text and placeholders *)













(** *** Exact placeholders *)










(** *** Objects *)





(** *** C1 *)





End SubstProofs.

Module ExecProofs.
Import Json Retry Subst Exec.

(** *** Concrete runs *)

Definition mk_step (step_name tool_name : string) (coe : bool) (secs : option Z)
    (retries : option nat) : SkillStep :=
  {| name := step_name; tool := tool_name; arguments := Object [];
     continue_on_error := coe; timeout_secs := secs; step_max_retries := retries |}.

Definition mk_skill (ss : list SkillStep) : Skill :=
  {| skill_name := "demo"; description := EmptyString; inputs := []; steps := ss |}.

Definition mk_config (skill_t step_t : Z) (action : TimeoutAction) (rc : RetryConfig)
  : ExecutionConfig :=
  {| timeout := {| skill_timeout := skill_t; step_timeout := step_t;
                   tool_timeout := Dur.from_secs 30; timeout_action := action |};
     retry := rc |}.

Definition const_transport (d : Z) (r : TransportResponse) : Transport := fun _ _ => (d, r).

Definition ok_result (data : value) : ToolResult :=
  {| tr_success := true; tr_data := Some data; tr_error := None; tr_duration_ms := None |}.

Definition rng0 : nat -> Z -> Z := fun _ _ => 0.

(** A retry configuration with the largest initial delay and the default
    jittered backoff; a tool whose calls fail at once with a network
    error; a generator drawing 1. *)
Definition panic_retry : RetryConfig :=
  {| max_retries := 3; initial_delay := Dur.DURATION_MAX; max_delay := Dur.from_secs 10;
     backoff := ExponentialJitter; retryable_errors := [Network; RateLimit; Timeout] |}.
Definition panic_config : ExecutionConfig :=
  {| timeout := default_timeout_config; retry := panic_retry |}.
Definition panic_skill : Skill := mk_skill [mk_step "fetch" "http" false None None].
Definition panic_transport : Transport := const_transport 0 (TErr "connection refused").
Definition rng1 : nat -> Z -> Z := fun _ _ => 1.

Section Run.
Variable transport : Transport.
Variable rng : nat -> Z -> Z.

Lemma bind_done {A B} (c : M A) (k : A -> M B) (st st' : State) (a : A) :
  c st = (st', Done a) -> bind c k st = k a st'.
Proof. unfold bind. intros ->. reflexivity. Qed.

Lemma bind_cut {A B} (c : M A) (k : A -> M B) (st st' : State) :
  c st = (st', Cut) -> bind c k st = (st', Cut).
Proof. unfold bind. intros ->. reflexivity. Qed.

Lemma bind_panicked {A B} (c : M A) (k : A -> M B) (st st' : State) :
  c st = (st', Panicked) -> bind c k st = (st', Panicked).
Proof. unfold bind. intros ->. reflexivity. Qed.

Definition after_emit (ev : event) (st : State) : State := fst (emit ev st).

Lemma execute_run (skill : Skill) (config : ExecutionConfig)
    (ctx_inputs : list (string * value)) (st : State) :
  execute transport rng skill config ctx_inputs st =
  match catch_cut
          (execute_steps transport rng (Some (clock st + skill_timeout (timeout config)))
             config ctx_inputs (List.length (steps skill)) (steps skill) 0 [])
          (on_skill_timeout config)
          (after_emit (BeforeSkill (skill_name skill)) st) with
  | (st2, Done (inl res)) => (after_emit (AfterSkill res) st2, Done (inl res))
  | (st2, Done (inr e)) =>
      (after_emit (AfterSkill (failure_result e)) (after_emit (OnError e) st2), Done (inr e))
  | (st2, Cut) => (st2, Cut)
  | (st2, Panicked) => (st2, Panicked)
  end.
Proof.
  unfold execute, after_emit, bind. cbn -[execute_steps on_skill_timeout catch_cut].
  destruct (catch_cut _ _ _) as [st2 [[res|e]| |]]; reflexivity.
Qed.

Definition deadline_ok (deadline : option Z) (t : Z) : Prop :=
  match deadline with Some dl => t <= dl | None => True end.

Definition after_call (st : State) (d : Z) : State :=
  {| outputs := outputs st; trace := trace st; clock := clock st + Z.max 0 d;
     calls := S (calls st); draws := draws st |}.

Lemma attempt_loop_unfold deadline tc step tmo rc left attempts :
  attempt_loop transport rng deadline tc step tmo rc left attempts =
  (result <- call_with_timeout transport deadline tmo tc ;;
   match result with
   | Some (TOk tool_result) => ret (inl (tool_result, (S attempts - 1)%nat))
   | Some (TErr error_msg) =>
       if (max_retries rc <? S attempts)%nat || negb (is_error_retryable error_msg rc)
       then ret (inr (RetryExhausted (name step) (S attempts) error_msg))
       else
         emit (OnRetry (name step) (S attempts) error_msg) ;;
         delay <- next_delay rng rc (S attempts) ;;
         suspend deadline delay ;;
         match left with
         | O => ret (inr (RetryExhausted (name step) (S attempts) error_msg))
         | S left' => attempt_loop transport rng deadline tc step tmo rc left' (S attempts)
         end
   | None =>
       emit (OnTimeout (name step) (Dur.as_millis tmo mod 2 ^ 64)) ;;
       if (max_retries rc <? S attempts)%nat || negb (has (retryable_errors rc) Timeout)
       then ret (inr (StepTimeout (name step) tmo))
       else
         emit (OnRetry (name step) (S attempts) "timeout") ;;
         delay <- next_delay rng rc (S attempts) ;;
         suspend deadline delay ;;
         match left with
         | O => ret (inr (StepTimeout (name step) tmo))
         | S left' => attempt_loop transport rng deadline tc step tmo rc left' (S attempts)
         end
   end).
Proof. destruct left; reflexivity. Qed.

(** A first call that answers within the step timeout and the deadline
    ends the loop with its result. *)
Lemma attempt_first_ok deadline tc step tmo rc left attempts st d tr :
  transport (calls st) tc = (d, TOk tr) -> Z.max 0 d <= tmo ->
  deadline_ok deadline (clock st + Z.max 0 d) ->
  attempt_loop transport rng deadline tc step tmo rc left attempts st
  = (after_call st d, Done (inl (tr, attempts))).
Proof.
  intros H1 H2 H3. rewrite attempt_loop_unfold. unfold bind, call_with_timeout.
  rewrite H1. cbv beta iota zeta.
  rewrite (proj2 (Z.leb_le _ _) H2).
  replace (S attempts - 1)%nat with attempts by lia.
  destruct deadline as [dl|]; unfold suspend, bind; cbv beta iota zeta;
    cbn [clock deadline_ok] in *.
  - rewrite (proj2 (Z.leb_le _ _) H3). reflexivity.
  - reflexivity.
Qed.

Definition call_of (ctx_inputs : list (string * value)) (step : SkillStep) (st : State)
  : ToolCall :=
  {| call_tool := tool step;
     call_arguments := substitute_value (extend ctx_inputs (outputs st)) (arguments step) |}.

Definition data_or_null (o : option value) : value :=
  match o with Some x => x | None => Null end.

Definition ok_step_result (step : SkillStep) (tr : ToolResult) (ms : Z) (attempts : nat)
  : StepResult :=
  {| step_name := name step; sr_success := true; sr_output := tr_data tr; sr_error := None;
     sr_duration_ms := ms; retry_attempts := attempts |}.

(** One step of [execute_steps] whose first call answers in time. *)
Lemma execute_steps_first_ok deadline config ctx_inputs total step rest index results st d tr :
  transport (calls st) (call_of ctx_inputs step st) = (d, TOk tr) ->
  Z.max 0 d <= step_timeout_of config step ->
  deadline_ok deadline (clock st + Z.max 0 d) ->
  let st1 := after_call (after_emit (BeforeStep (name step) index) st) d in
  let sr := ok_step_result step tr (Dur.as_millis (clock st1 - clock st)) 0 in
  let st2 := fst (set_output (name step) (data_or_null (tr_data tr))
                    (after_emit (AfterStep (name step) index sr) st1)) in
  let results' := (results ++ [(name step, tr)])%list in
  execute_steps transport rng deadline config ctx_inputs total (step :: rest) index results st
  = if (List.length results' =? total)%nat
    then (st2, Done (inl {| sk_success := true; step_results := results';
                            sk_output := tr_data tr; sk_error := None |}))
    else execute_steps transport rng deadline config ctx_inputs total rest (S index) results' st2.
Proof.
  intros H1 H2 H3. cbn [execute_steps].
  unfold prepare_call, variables, emit, now, ret, bind. cbv beta iota zeta.
  cbn [outputs trace clock calls draws].
  erewrite attempt_first_ok; [| exact H1 | exact H2 | exact H3].
  cbv beta iota zeta. cbn [outputs trace clock calls draws after_call].
  destruct (List.length _ =? total)%nat; reflexivity.
Qed.

(** C4: a step whose tool answers [Ok] with [success = false] counts as
    successful in [execute_steps] (its [after_step] result is a
    success, its data or [null] is stored, the run goes on, and ends
    with [success = true] if it was the last step), while
    [execute_step] on the same step and context reports it as a
    failure and returns [Err(SkillError::Execution)]. *)
Theorem C4_tool_failure_classification deadline config ctx_inputs total step rest index
    results st d tr :
  transport (calls st) (call_of ctx_inputs step st) = (d, TOk tr) ->
  tr_success tr = false ->
  Z.max 0 d <= step_timeout_of config step ->
  deadline_ok deadline (clock st + Z.max 0 d) ->
  (exists st1 sr,
      sr_success sr = true /\ sr_output sr = tr_data tr /\
      trace st1 = (trace st ++ [BeforeStep (name step) index;
                                AfterStep (name step) index sr])%list /\
      outputs st1 = map_insert (name step) (data_or_null (tr_data tr)) (outputs st) /\
      execute_steps transport rng deadline config ctx_inputs total (step :: rest) index
        results st
      = if (List.length (results ++ [(name step, tr)]) =? total)%nat
        then (st1, Done (inl {| sk_success := true;
                                step_results := (results ++ [(name step, tr)])%list;
                                sk_output := tr_data tr; sk_error := None |}))
        else execute_steps transport rng deadline config ctx_inputs total rest (S index)
               (results ++ [(name step, tr)]) st1) /\
  (exists st2 sr,
      sr_success sr = false /\
      trace st2 = (trace st ++ [BeforeStep (name step) 0; AfterStep (name step) 0 sr])%list /\
      execute_step transport rng step config ctx_inputs st
      = (st2, Done (inr (Execution (match tr_error tr with
                                    | Some m => m
                                    | None => EmptyString
                                    end))))).
Proof.
  intros H1 Hs H2 H3. split.
  - set (st1 := after_call (after_emit (BeforeStep (name step) index) st) d).
    set (sr := ok_step_result step tr (Dur.as_millis (clock st1 - clock st)) 0).
    exists (fst (set_output (name step) (data_or_null (tr_data tr))
                   (after_emit (AfterStep (name step) index sr) st1))), sr.
    split; [reflexivity|]. split; [reflexivity|].
    split; [cbn; now rewrite <- app_assoc|]. split; [reflexivity|].
    apply execute_steps_first_ok; assumption.
  - assert (Hrun : forall o, tr_data tr = o ->
      exists st2 sr,
        sr_success sr = false /\
        trace st2 = (trace st ++ [BeforeStep (name step) 0; AfterStep (name step) 0 sr])%list /\
        execute_step transport rng step config ctx_inputs st
        = (st2, Done (inr (Execution (match tr_error tr with
                                      | Some m => m
                                      | None => EmptyString
                                      end))))).
    { intros o Ed. destruct o as [v|]; do 2 eexists; (split; [|split]).
      3, 6: unfold execute_step, prepare_call, variables, emit, now, ret, bind;
           cbv beta iota zeta; cbn [outputs trace clock calls draws];
           erewrite attempt_first_ok; [| exact H1 | exact H2 | exact I];
           cbv beta iota zeta; cbn [outputs trace clock calls draws after_call];
           rewrite Ed; unfold set_output; cbv beta iota zeta;
           cbn [outputs trace clock calls draws sr_success sr_error];
           rewrite Hs; reflexivity.
      2, 4: cbn; rewrite <- app_assoc; reflexivity.
      all: cbn; rewrite ?Hs; reflexivity. }
    exact (Hrun _ eq_refl).
Qed.







(** A failing first call with no retry allowed ends the loop. *)
Lemma attempt_first_err_noretry deadline tc step tmo rc left st d msg :
  transport (calls st) tc = (d, TErr msg) -> Z.max 0 d <= tmo ->
  deadline_ok deadline (clock st + Z.max 0 d) -> max_retries rc = 0%nat ->
  attempt_loop transport rng deadline tc step tmo rc left 0 st
  = (after_call st d, Done (inr (RetryExhausted (name step) 1 msg))).
Proof.
  intros H1 H2 H3 H4. rewrite attempt_loop_unfold. unfold call_with_timeout, bind, ret.
  rewrite H1. cbv beta iota zeta.
  rewrite (proj2 (Z.leb_le _ _) H2), H4.
  destruct deadline as [dl|]; unfold suspend, advance; cbv beta iota zeta;
    cbn [outputs trace clock calls draws deadline_ok] in *.
  - rewrite (proj2 (Z.leb_le _ _) H3). reflexivity.
  - reflexivity.
Qed.

(** A step failing with [continue_on_error] records a failure result
    and goes on with the next step. *)
Lemma execute_steps_first_err_continue deadline config ctx_inputs total step rest index
    results st st2 e :
  attempt_loop transport rng deadline (call_of ctx_inputs step st) step
    (step_timeout_of config step) (step_retry_config config step)
    (max_retries (step_retry_config config step)) 0
    (after_emit (BeforeStep (name step) index) st) = (st2, Done (inr e)) ->
  continue_on_error step = true ->
  execute_steps transport rng deadline config ctx_inputs total (step :: rest) index results st
  = execute_steps transport rng deadline config ctx_inputs total rest (S index)
      (results ++ [(name step, ToolResult_failure (error_to_string e))])
      (after_emit (OnError e)
         (after_emit (AfterStep (name step) index
                        (StepResult_failure (name step) (error_to_string e)
                           (Dur.as_millis (clock st2 - clock st)))) st2)).
Proof.
  intros H Hc. unfold after_emit, emit in *. cbn [fst] in H.
  cbn [execute_steps]. unfold prepare_call, variables, emit, now, ret, bind.
  cbv beta iota zeta. cbn [outputs trace clock calls draws].
  unfold call_of in H. rewrite H. cbv beta iota zeta. cbn [outputs trace clock calls draws].
  rewrite Hc. reflexivity.
Qed.

(** C9: a skill of two steps, the first one failing on every call with
    [continue_on_error] and [max_retries = 0], the second one
    succeeding, with both calls within their step timeouts and the skill
    timeout: [execute] returns [Ok] with [success = true] and exactly two
    step results, a failure for the first step and the second step's
    success. *)
Theorem C9_continue_on_error skill config ctx_inputs st s1 s2 d1 msg d2 tr2 :
  steps skill = [s1; s2] ->
  continue_on_error s1 = true -> step_max_retries s1 = Some 0%nat ->
  transport (calls st) (call_of ctx_inputs s1 st) = (d1, TErr msg) ->
  transport (S (calls st)) (call_of ctx_inputs s2 st) = (d2, TOk tr2) ->
  tr_success tr2 = true ->
  Z.max 0 d1 <= step_timeout_of config s1 -> Z.max 0 d2 <= step_timeout_of config s2 ->
  Z.max 0 d1 + Z.max 0 d2 <= skill_timeout (timeout config) ->
  exists st' r,
    execute transport rng skill config ctx_inputs st = (st', Done (inl r)) /\
    sk_success r = true /\
    step_results r = [(name s1, ToolResult_failure
                                  (error_to_string (RetryExhausted (name s1) 1 msg)));
                      (name s2, tr2)] /\
    map (fun p => tr_success (snd p)) (step_results r) = [false; true].
Proof.
  intros Hs Hc Hm H1 H2 Hok Ht1 Ht2 Hsk.
  set (e := RetryExhausted (name s1) 1 msg).
  set (st0 := after_emit (BeforeSkill (skill_name skill)) st).
  set (dl := clock st + skill_timeout (timeout config)).
  set (sta := after_call (after_emit (BeforeStep (name s1) 0) st0) d1).
  assert (E1 : attempt_loop transport rng (Some dl) (call_of ctx_inputs s1 st0) s1
                 (step_timeout_of config s1) (step_retry_config config s1)
                 (max_retries (step_retry_config config s1)) 0
                 (after_emit (BeforeStep (name s1) 0) st0)
               = (sta, Done (inr e))).
  { apply attempt_first_err_noretry; [exact H1 | exact Ht1 | | ].
    - cbn. unfold dl. lia.
    - cbn. now rewrite Hm. }
  set (stb := after_emit (OnError e)
                (after_emit (AfterStep (name s1) 0
                               (StepResult_failure (name s1) (error_to_string e)
                                  (Dur.as_millis (clock sta - clock st0)))) sta)).
  set (res := [(name s1, ToolResult_failure (error_to_string e))]).
  assert (E2 : execute_steps transport rng (Some dl) config ctx_inputs 2 [s2] 1 res stb
               = (fst (set_output (name s2) (data_or_null (tr_data tr2))
                         (after_emit (AfterStep (name s2) 1
                            (ok_step_result s2 tr2
                               (Dur.as_millis
                                  (clock (after_call (after_emit (BeforeStep (name s2) 1) stb) d2)
                                   - clock stb)) 0))
                            (after_call (after_emit (BeforeStep (name s2) 1) stb) d2))),
                  Done (inl {| sk_success := true; step_results := (res ++ [(name s2, tr2)])%list;
                               sk_output := tr_data tr2; sk_error := None |}))).
  { rewrite (execute_steps_first_ok _ _ _ _ _ _ _ _ _ d2 tr2); [reflexivity | exact H2 | exact Ht2 |].
    cbn. unfold dl. lia. }
  rewrite execute_run. rewrite Hs. unfold catch_cut.
  cbn [List.length].
  rewrite (execute_steps_first_err_continue _ _ _ _ _ _ _ _ _ _ _ E1 Hc).
  fold st0 dl. rewrite app_nil_l. fold res stb. rewrite E2.
  do 2 eexists. split; [reflexivity|]. cbn. now rewrite Hok.
Qed.

(** *** Events of the step loop *)

Definition no_skill_event (ev : event) : Prop :=
  match ev with BeforeSkill _ | AfterSkill _ => False | _ => True end.

(** [c] only appends events other than [before_skill] and
    [after_skill] to the trace, whatever its outcome. *)
Definition quiet {A} (c : M A) : Prop :=
  forall st, exists mid, trace (fst (c st)) = (trace st ++ mid)%list /\
                         Forall no_skill_event mid.

Lemma quiet_ret {A} (a : A) : quiet (ret a).
Proof. intros st. exists []. split; [symmetry; apply app_nil_r | constructor]. Qed.

Lemma quiet_panic {A} : quiet (@panic A).
Proof. intros st. exists []. split; [symmetry; apply app_nil_r | constructor]. Qed.

Lemma quiet_emit (ev : event) : no_skill_event ev -> quiet (emit ev).
Proof. intros H st. exists [ev]. split; [reflexivity | now constructor]. Qed.

Lemma quiet_now : quiet now.
Proof. intros st. exists []. split; [symmetry; apply app_nil_r | constructor]. Qed.

Lemma quiet_set_output (k : string) (v : value) : quiet (set_output k v).
Proof. intros st. exists []. split; [symmetry; apply app_nil_r | constructor]. Qed.

Lemma quiet_variables (ctx_inputs : list (string * value)) : quiet (variables ctx_inputs).
Proof. intros st. exists []. split; [symmetry; apply app_nil_r | constructor]. Qed.

Lemma quiet_suspend (deadline : option Z) (d : Z) : quiet (suspend deadline d).
Proof.
  intros st. exists []. split; [|constructor]. rewrite app_nil_r.
  unfold suspend. destruct deadline; [destruct (_ <=? _)|]; reflexivity.
Qed.

Lemma quiet_next_delay (rc : RetryConfig) (a : nat) : quiet (next_delay rng rc a).
Proof.
  intros st. exists []. split; [|constructor]. rewrite app_nil_r.
  unfold next_delay. destruct (calculate_delay _ _ _); reflexivity.
Qed.

Lemma quiet_bind {A B} (c : M A) (k : A -> M B) :
  quiet c -> (forall a, quiet (k a)) -> quiet (bind c k).
Proof.
  intros Hc Hk st. unfold bind. destruct (Hc st) as (mid1 & E1 & F1).
  destruct (c st) as [st1 [a| |]]; cbn [fst] in *.
  - destruct (Hk a st1) as (mid2 & E2 & F2). exists (mid1 ++ mid2)%list.
    split; [rewrite E2, E1; symmetry; apply app_assoc | now apply Forall_app].
  - now exists mid1.
  - now exists mid1.
Qed.

Lemma quiet_call (deadline : option Z) (tmo : Z) (tc : ToolCall) :
  quiet (call_with_timeout transport deadline tmo tc).
Proof.
  intros st. unfold call_with_timeout. destruct (transport (calls st) tc) as [d0 r].
  cbv zeta. destruct (Z.max 0 d0 <=? tmo).
  - destruct (quiet_bind _ _ (quiet_suspend deadline (Z.max 0 d0)) (fun _ => quiet_ret (Some r))
                {| outputs := outputs st; trace := trace st; clock := clock st;
                   calls := S (calls st); draws := draws st |}) as (mid & E & F).
    now exists mid.
  - destruct (quiet_bind _ _ (quiet_suspend deadline tmo) (fun _ => quiet_ret (@None TransportResponse))
                {| outputs := outputs st; trace := trace st; clock := clock st;
                   calls := S (calls st); draws := draws st |}) as (mid & E & F).
    now exists mid.
Qed.

Lemma quiet_catch_cut {A} (c h : M A) : quiet c -> quiet h -> quiet (catch_cut c h).
Proof.
  intros Hc Hh st. unfold catch_cut. destruct (Hc st) as (mid1 & E1 & F1).
  destruct (c st) as [st1 [a| |]]; cbn [fst] in *.
  - now exists mid1.
  - destruct (Hh st1) as (mid2 & E2 & F2). exists (mid1 ++ mid2)%list.
    split; [rewrite E2, E1; symmetry; apply app_assoc | now apply Forall_app].
  - now exists mid1.
Qed.

Ltac quiet_step :=
  first
    [ apply quiet_bind; [ | intros ?]
    | apply quiet_ret
    | apply quiet_panic
    | apply quiet_now
    | apply quiet_set_output
    | apply quiet_variables
    | apply quiet_suspend
    | apply quiet_next_delay
    | apply quiet_call
    | apply quiet_emit; exact I
    | match goal with
      | |- quiet (match ?x with _ => _ end) => destruct x
      | |- quiet (if ?b then _ else _) => destruct b
      end ].

Lemma quiet_attempt_loop deadline tc step tmo rc left attempts :
  quiet (attempt_loop transport rng deadline tc step tmo rc left attempts).
Proof.
  revert attempts. induction left as [|l IH]; intros attempts;
    rewrite attempt_loop_unfold; repeat quiet_step; apply IH.
Qed.

Lemma quiet_execute_steps deadline config ctx_inputs total steps_ index results :
  quiet (execute_steps transport rng deadline config ctx_inputs total steps_ index results).
Proof.
  revert index results. induction steps_ as [|step rest IH]; intros index results;
    cbn [execute_steps]; unfold prepare_call; repeat quiet_step;
    solve [apply IH | apply quiet_attempt_loop].
Qed.

Lemma quiet_on_skill_timeout config : quiet (on_skill_timeout config).
Proof. unfold on_skill_timeout. repeat quiet_step. Qed.

Lemma on_skill_timeout_done config st : exists st' r, on_skill_timeout config st = (st', Done r).
Proof.
  unfold on_skill_timeout. destruct (timeout_action (timeout config)); do 2 eexists; reflexivity.
Qed.

(** An [Err] of [execute_steps] comes from a step without
    [continue_on_error] under [timeout_action = Fail]. *)
Lemma bind_done_inv {A B} (c : M A) (k : A -> M B) (st st' : State) (v : B) :
  bind c k st = (st', Done v) ->
  exists x st1, c st = (st1, Done x) /\ k x st1 = (st', Done v).
Proof.
  unfold bind. destruct (c st) as [st1 [x| |]]; try discriminate.
  intros H. exists x, st1. split; [reflexivity | exact H].
Qed.

(** The errors of the retry loop name its step: an exhausted retry or a
    step timeout after the step's own timeout. *)
Lemma attempt_loop_err deadline tc step tmo rc left attempts st st' e :
  attempt_loop transport rng deadline tc step tmo rc left attempts st = (st', Done (inr e)) ->
  (exists a m, e = RetryExhausted (name step) a m) \/ e = StepTimeout (name step) tmo.
Proof.
  revert attempts st. induction left as [|l IH]; intros attempts st H;
    rewrite attempt_loop_unfold in H;
    apply bind_done_inv in H; destruct H as ([[tr|msg]|] & s1 & _ & H); unfold ret in H.
  all: try discriminate.
  all: try (destruct (_ || _); [injection H as <-; eauto|]).
  all: repeat (apply bind_done_inv in H; destruct H as (? & ? & _ & H)).
  all: try (destruct (_ || _); [injection H as <-; eauto|]).
  all: repeat (apply bind_done_inv in H; destruct H as (? & ? & _ & H)).
  all: try (injection H as <-; eauto).
  all: eapply IH; exact H.
Qed.

Lemma execute_steps_err deadline config ctx_inputs total steps_ index results st st' e :
  execute_steps transport rng deadline config ctx_inputs total steps_ index results st
  = (st', Done (inr e)) ->
  timeout_action (timeout config) = Fail /\
  exists step tc st1 st2,
    In step steps_ /\ continue_on_error step = false /\
    attempt_loop transport rng deadline tc step (step_timeout_of config step)
      (step_retry_config config step) (max_retries (step_retry_config config step)) 0 st1
    = (st2, Done (inr e)).
Proof.
  revert index results st. induction steps_ as [|step rest IH]; intros index results st.
  - cbn [execute_steps]. unfold ret. discriminate.
  - cbn [execute_steps]. unfold prepare_call, variables, emit, now, set_output, ret, bind.
    cbv beta iota zeta.
    match goal with
    | |- context [attempt_loop ?a1 ?a2 ?a3 ?a4 ?a5 ?a6 ?a7 ?a8 ?a9 ?a10] =>
        destruct (attempt_loop a1 a2 a3 a4 a5 a6 a7 a8 a9 a10) as [st2 [[[tr att]|e']| |]]
          eqn:Ea
    end; cbv beta iota zeta; try discriminate.
    + destruct (_ =? total)%nat; [discriminate|].
      intros H. destruct (IH _ _ _ H) as (Ha & s & tc & s1 & s2 & Hin & Hc & Hl).
      split; [exact Ha|].
      exists s, tc, s1, s2. split; [now right | split; [exact Hc | exact Hl]].
    + destruct (continue_on_error step) eqn:Hc.
      * intros H. destruct (IH _ _ _ H) as (Ha & s & tc & s1 & s2 & Hin & Hc' & Hl).
        split; [exact Ha|].
        exists s, tc, s1, s2. split; [now right | split; [exact Hc' | exact Hl]].
      * destruct (timeout_action (timeout config)) eqn:Ha.
        -- intros H. injection H as _ <-. split; [reflexivity|].
           exists step. do 3 eexists. split; [now left | split; [exact Hc | exact Ea]].
        -- intros H. destruct (IH _ _ _ H) as (Ha' & s & tc & s1 & s2 & Hin & Hc' & Hl).
           split; [exact Ha'|].
           exists s, tc, s1, s2. split; [now right | split; [exact Hc' | exact Hl]].
        -- discriminate.
Qed.

(** C3: when the step loop overruns the skill timeout ([Cut]), [Fail]
    returns [SkillTimeout] after [on_error] (which fires twice, once
    in the timeout handler and once in the final notification), and
    [Skip] or [Partial] return a non-success result with the message
    ["Skill timed out after ..."] and no step results. *)
Theorem C3_skill_timeout_handling (skill : Skill) (config : ExecutionConfig)
    (ctx_inputs : list (string * value)) (st st2 : State) :
  execute_steps transport rng (Some (clock st + skill_timeout (timeout config)))
    config ctx_inputs (List.length (steps skill)) (steps skill) 0 []
    (after_emit (BeforeSkill (skill_name skill)) st) = (st2, Cut) ->
  let T := skill_timeout (timeout config) in
  match timeout_action (timeout config) with
  | Fail =>
      execute transport rng skill config ctx_inputs st =
      (after_emit (AfterSkill (failure_result (SkillTimeout T)))
         (after_emit (OnError (SkillTimeout T))
            (after_emit (OnError (SkillTimeout T)) st2)),
       Done (inr (SkillTimeout T)))
  | Skip | Partial =>
      let r := {| sk_success := false; step_results := []; sk_output := None;
                  sk_error := Some ("Skill timed out after " ++ duration_debug T) |} in
      execute transport rng skill config ctx_inputs st =
      (after_emit (AfterSkill r) st2, Done (inl r))
  end.
Proof.
  intros H. rewrite execute_run. unfold catch_cut. rewrite H.
  unfold on_skill_timeout. destruct (timeout_action (timeout config)); reflexivity.
Qed.

End Run.

Definition c4_result : ToolResult :=
  {| tr_success := false; tr_data := Some (Number 1); tr_error := Some "bad input";
     tr_duration_ms := None |}.
Definition c4_step : SkillStep := mk_step "fetch" "http" false None None.
Definition c4_transport : Transport := const_transport (Dur.from_millis 10) (TOk c4_result).

Lemma C4_tool_failure_classification_witness :
  (exists st1,
      execute_steps c4_transport rng0 (Some (Dur.from_secs 300)) default_execution_config [] 1
        [c4_step] 0 [] init_state
      = (st1, Done (inl {| sk_success := true; step_results := [("fetch", c4_result)];
                           sk_output := Some (Number 1); sk_error := None |}))) /\
  (exists st2,
      execute_step c4_transport rng0 c4_step default_execution_config [] init_state
      = (st2, Done (inr (Execution "bad input")))).
Proof.
  destruct (C4_tool_failure_classification c4_transport rng0 (Some (Dur.from_secs 300))
              default_execution_config [] 1 c4_step [] 0 [] init_state
              (Dur.from_millis 10) c4_result eq_refl eq_refl
              ltac:(vm_compute; congruence) ltac:(vm_compute; congruence))
    as [(st1 & sr & _ & _ & _ & _ & E1) (st2 & sr2 & _ & _ & E2)].
  split; [exists st1; exact E1 | exists st2; exact E2].
Defined.



Definition c9_transport : Transport :=
  fun n _ => if Nat.eqb n 0 then (Dur.from_millis 5, TErr "tool crashed")
             else (Dur.from_millis 5, TOk (ok_result (Number 7))).
Definition c9_s1 : SkillStep := mk_step "first" "broken" true None (Some 0%nat).
Definition c9_s2 : SkillStep := mk_step "second" "echo" false None None.
Definition c9_skill : Skill := mk_skill [c9_s1; c9_s2].

Lemma C9_continue_on_error_witness :
  exists st' r,
    execute c9_transport rng0 c9_skill default_execution_config [] init_state
    = (st', Done (inl r)) /\
    sk_success r = true /\
    step_results r = [("first", ToolResult_failure
                                  (error_to_string (RetryExhausted "first" 1 "tool crashed")));
                      ("second", ok_result (Number 7))] /\
    map (fun p => tr_success (snd p)) (step_results r) = [false; true].
Proof.
  apply (C9_continue_on_error c9_transport rng0 c9_skill default_execution_config []
           init_state c9_s1 c9_s2 (Dur.from_millis 5) "tool crashed"
           (Dur.from_millis 5) (ok_result (Number 7)));
    try reflexivity; vm_compute; congruence.
Defined.

(** C2 (code bug).  An [Err] of [execute] only comes with
    [timeout_action = Fail], either from the skill timeout or as the
    error of the retry loop of a step without [continue_on_error]: the
    loop of that step, run under the skill deadline with the step's
    timeout and retries, failed with that very error, which is the
    step's [RetryExhausted] or its [StepTimeout].  But [execute] need
    not return at all: with the default jittered backoff and
    [initial_delay = Duration::MAX], the first retry of a failing call
    panics in [calculate_delay] ([base + Duration::from_millis(jitter)]
    overflows), so the call is neither [Ok] nor [Err]. *)
Theorem C2_execute_outcomes :
  (forall transport rng skill config ctx_inputs st st' e,
      execute transport rng skill config ctx_inputs st = (st', Done (inr e)) ->
      timeout_action (timeout config) = Fail /\
      (e = SkillTimeout (skill_timeout (timeout config)) \/
       exists step tc st1 st2,
         In step (steps skill) /\ continue_on_error step = false /\
         attempt_loop transport rng (Some (clock st + skill_timeout (timeout config))) tc step
           (step_timeout_of config step) (step_retry_config config step)
           (max_retries (step_retry_config config step)) 0 st1 = (st2, Done (inr e)) /\
         ((exists a m, e = RetryExhausted (name step) a m) \/
          e = StepTimeout (name step) (step_timeout_of config step)))) /\
  snd (execute panic_transport rng1 panic_skill panic_config [] init_state) = Panicked.
Proof.
  split; [|reflexivity].
  intros transport rng skill config ctx_inputs st st' e H.
  rewrite execute_run in H. unfold catch_cut in H.
  match type of H with
  | context [execute_steps ?a1 ?a2 ?a3 ?a4 ?a5 ?a6 ?a7 ?a8 ?a9 ?a10] =>
      destruct (execute_steps a1 a2 a3 a4 a5 a6 a7 a8 a9 a10) as [st2 [[r|e']| |]] eqn:Es
  end; try discriminate.
  - injection H as _ <-.
    destruct (execute_steps_err _ _ _ _ _ _ _ _ _ _ _ _ Es)
      as (Ha & step & tc & s1 & s2 & Hin & Hc & Hl).
    split; [exact Ha | right].
    exists step, tc, s1, s2. split; [exact Hin | split; [exact Hc | split; [exact Hl|]]].
    exact (attempt_loop_err _ _ _ _ _ _ _ _ _ _ _ _ Hl).
  - unfold on_skill_timeout in H.
    destruct (timeout_action (timeout config)); cbn in H; try discriminate.
    injection H as _ <-. split; [reflexivity | now left].
Qed.

Definition c2_skill : Skill := mk_skill [mk_step "fetch" "http" false None None].
Definition c2_transport : Transport := const_transport 0 (TErr "permission denied").

Lemma C2_execute_outcomes_witness :
  timeout_action (timeout default_execution_config) = Fail /\
  (RetryExhausted "fetch" 1 "permission denied" = SkillTimeout (Dur.from_secs 300) \/
   exists step tc st1 st2,
     In step (steps c2_skill) /\ continue_on_error step = false /\
     attempt_loop c2_transport rng0 (Some (clock init_state + Dur.from_secs 300)) tc step
       (step_timeout_of default_execution_config step)
       (step_retry_config default_execution_config step)
       (max_retries (step_retry_config default_execution_config step)) 0 st1
     = (st2, Done (inr (RetryExhausted "fetch" 1 "permission denied"))) /\
     ((exists a m, RetryExhausted "fetch" 1 "permission denied" = RetryExhausted (name step) a m) \/
      RetryExhausted "fetch" 1 "permission denied"
      = StepTimeout (name step) (step_timeout_of default_execution_config step))).
Proof.
  destruct C2_execute_outcomes as (P & _).
  apply (P c2_transport rng0 c2_skill default_execution_config [] init_state
           (fst (execute c2_transport rng0 c2_skill default_execution_config [] init_state))).
  vm_compute. reflexivity.
Defined.

(** C10 (code bug).  In every call of [execute] that does not panic,
    [before_skill] is the first event, every event after it up to the
    last one is a step-level event ([before_step], [after_step],
    [on_retry], [on_timeout], [on_error]), and the last one is the only
    [after_skill], with the result returned on [Ok] and the synthesized
    failure result on [Err].  When [calculate_delay] panics (default
    jittered backoff, [initial_delay = Duration::MAX], a failing call),
    [after_skill] never fires. *)
Theorem C10_skill_hooks :
  (forall transport rng skill config ctx_inputs st,
      snd (execute transport rng skill config ctx_inputs st) <> Panicked ->
      exists mid res,
        trace (fst (execute transport rng skill config ctx_inputs st))
        = (trace st ++ BeforeSkill (skill_name skill) :: mid ++ [AfterSkill res])%list /\
        Forall no_skill_event mid /\
        (forall r, snd (execute transport rng skill config ctx_inputs st) = Done (inl r) ->
                   res = r) /\
        (forall e, snd (execute transport rng skill config ctx_inputs st) = Done (inr e) ->
                   res = failure_result e)) /\
  snd (execute panic_transport rng1 panic_skill panic_config [] init_state) = Panicked /\
  trace (fst (execute panic_transport rng1 panic_skill panic_config [] init_state))
  = [BeforeSkill "demo"; BeforeStep "fetch" 0; OnRetry "fetch" 1 "connection refused"].
Proof.
  split; [|split; reflexivity].
  intros transport rng skill config ctx_inputs st Hp.
  rewrite execute_run in *.
  set (st0 := after_emit (BeforeSkill (skill_name skill)) st) in *.
  set (c := execute_steps transport rng (Some (clock st + skill_timeout (timeout config)))
              config ctx_inputs (List.length (steps skill)) (steps skill) 0 []) in *.
  destruct (quiet_catch_cut c (on_skill_timeout config)
              (quiet_execute_steps transport rng _ _ _ _ _ _ _)
              (quiet_on_skill_timeout config) st0) as (mid & E & F).
  assert (Hnc : forall st2, catch_cut c (on_skill_timeout config) st0 <> (st2, Cut)).
  { intros st2. unfold catch_cut. destruct (c st0) as [s [a| |]]; try discriminate.
    destruct (on_skill_timeout_done config s) as (s' & r & Eo). rewrite Eo. discriminate. }
  revert E Hp Hnc.
  destruct (catch_cut c (on_skill_timeout config) st0) as [st2 [[r|e]| |]];
    cbn [fst snd]; intros E Hp Hnc.
  - exists mid, r. split; [|split; [exact F | split; [congruence | discriminate]]].
    unfold after_emit, emit. cbn [fst trace]. rewrite E.
    unfold st0, after_emit, emit. cbn [fst trace]. rewrite <- !app_assoc. reflexivity.
  - exists (mid ++ [OnError e])%list, (failure_result e).
    split; [|split; [apply Forall_app; split; [exact F | now constructor] |
                     split; [discriminate | congruence]]].
    unfold after_emit, emit. cbn [fst trace]. rewrite E.
    unfold st0, after_emit, emit. cbn [fst trace]. rewrite <- !app_assoc. reflexivity.
  - exfalso. exact (Hnc st2 eq_refl).
  - exfalso. exact (Hp eq_refl).
Qed.

Lemma C10_skill_hooks_witness :
  exists mid res,
    trace (fst (execute c2_transport rng0 c2_skill default_execution_config [] init_state))
    = ([] ++ BeforeSkill "demo" :: mid ++ [AfterSkill res])%list /\
    Forall no_skill_event mid /\
    (forall r, snd (execute c2_transport rng0 c2_skill default_execution_config [] init_state)
               = Done (inl r) -> res = r) /\
    (forall e, snd (execute c2_transport rng0 c2_skill default_execution_config [] init_state)
               = Done (inr e) -> res = failure_result e).
Proof.
  destruct C10_skill_hooks as (Q & _).
  apply (Q c2_transport rng0 c2_skill default_execution_config [] init_state).
  vm_compute. discriminate.
Defined.

Definition c3_skill : Skill := mk_skill [mk_step "fetch" "http" false None None].
Definition c3_transport : Transport := const_transport (Dur.from_secs 2) (TOk (ok_result Null)).

Lemma C3_skill_timeout_handling_witness :
  let config := mk_config (Dur.from_secs 1) (Dur.from_secs 60) Fail default_retry_config in
  execute c3_transport rng0 c3_skill config [] init_state =
  (after_emit (AfterSkill (failure_result (SkillTimeout (Dur.from_secs 1))))
     (after_emit (OnError (SkillTimeout (Dur.from_secs 1)))
        (after_emit (OnError (SkillTimeout (Dur.from_secs 1)))
           (fst (execute_steps c3_transport rng0 (Some (Dur.from_secs 1)) config [] 1
                   (steps c3_skill) 0 [] (after_emit (BeforeSkill "demo") init_state))))),
   Done (inr (SkillTimeout (Dur.from_secs 1)))).
Proof.
  intros config.
  exact (C3_skill_timeout_handling c3_transport rng0 c3_skill config [] init_state _
           (eq_refl : execute_steps c3_transport rng0 (Some (0 + Dur.from_secs 1)) config [] 1
                        (steps c3_skill) 0 [] (after_emit (BeforeSkill "demo") init_state)
                      = (_, Cut))).
Defined.
End ExecProofs.

(** ** Further properties of the retry policy and of [with_retry] *)
Module RetryExtraProofs.
Import Retry RetryLoop.

Lemma exponent_of_range (a : Z) : 1 <= a <= 2 ^ 32 -> exponent_of a = a - 1.
Proof.
  intros H. unfold exponent_of. rewrite Z.max_l by lia. apply Z.mod_small. lia.
Qed.

Lemma pow2_nonneg (e : Z) : 0 <= u32_saturating_pow2 e.
Proof.
  unfold u32_saturating_pow2, U32_MAX. destruct (e <? 32); [apply Z.pow_nonneg|]; lia.
Qed.

Lemma pow2_mono (e1 e2 : Z) :
  0 <= e1 <= e2 -> u32_saturating_pow2 e1 <= u32_saturating_pow2 e2.
Proof.
  intros H. unfold u32_saturating_pow2, U32_MAX.
  destruct (Z.ltb_spec e1 32), (Z.ltb_spec e2 32).
  - apply Z.pow_le_mono_r; lia.
  - assert (2 ^ e1 <= 2 ^ 31) by (apply Z.pow_le_mono_r; lia). lia.
  - lia.
  - lia.
Qed.

Lemma saturating_mul_mono (d m1 m2 : Z) :
  0 <= d -> m1 <= m2 -> Dur.saturating_mul d m1 <= Dur.saturating_mul d m2.
Proof.
  intros Hd Hm. assert (d * m1 <= d * m2) by (apply Z.mul_le_mono_nonneg_l; lia).
  unfold Dur.saturating_mul.
  destruct (Z.ltb_spec Dur.DURATION_MAX (d * m1)),
           (Z.ltb_spec Dur.DURATION_MAX (d * m2)); lia.
Qed.

(** X1.  Exponential backoff never decreases from attempt 1 up to attempt
    [2^32]; at attempt [2^32 + 1] the [as u32] cast of [attempt - 1]
    wraps to 0 and the delay is back to the one of attempt 1. *)
Theorem exponential_delay_monotone (rnd : Z -> Z) (config : RetryConfig) :
  backoff config = Exponential ->
  0 <= initial_delay config ->
  (forall a b, 1 <= a <= b -> b <= 2 ^ 32 ->
     exists da db, calculate_delay rnd config a = Some da /\
                   calculate_delay rnd config b = Some db /\ da <= db) /\
  calculate_delay rnd config (2 ^ 32 + 1) = calculate_delay rnd config 1.
Proof.
  intros Hb Hi. split.
  - intros a b Hab Hb2. unfold calculate_delay. rewrite Hb. cbn [option_map].
    do 2 eexists. split; [reflexivity | split; [reflexivity|]].
    unfold Dur.min. apply Z.min_le_compat_r. apply saturating_mul_mono; [exact Hi|].
    apply pow2_mono. rewrite !exponent_of_range by lia. lia.
  - unfold calculate_delay. rewrite Hb. reflexivity.
Qed.

Definition exp_100ms_config : RetryConfig :=
  {| max_retries := 3; initial_delay := Dur.from_millis 100; max_delay := Dur.from_secs 10;
     backoff := Exponential; retryable_errors := [] |}.

Lemma exponential_delay_monotone_witness :
  (forall a b, 1 <= a <= b -> b <= 2 ^ 32 ->
     exists da db, calculate_delay (fun _ => 0) exp_100ms_config a = Some da /\
                   calculate_delay (fun _ => 0) exp_100ms_config b = Some db /\ da <= db) /\
  calculate_delay (fun _ => 0) exp_100ms_config (2 ^ 32 + 1)
  = calculate_delay (fun _ => 0) exp_100ms_config 1.
Proof.
  apply (exponential_delay_monotone (fun _ => 0) exp_100ms_config);
    [reflexivity | cbn; lia].
Defined.

(** X2.  With [ExponentialJitter], when the base delay [b] (the
    saturated [initial_delay * 2^(attempt-1)]) leaves room for half of
    itself below [Duration::MAX], [calculate_delay] does not panic, and
    whatever the generator draws the delay lies between [min(b, max_delay)]
    and [min(b + b/2, max_delay)]. *)
Theorem jitter_delay_bounds (rnd : Z -> Z) (config : RetryConfig) (attempt : Z) :
  backoff config = ExponentialJitter ->
  0 <= initial_delay config ->
  let b := Dur.saturating_mul (initial_delay config)
             (u32_saturating_pow2 (exponent_of attempt)) in
  b + b / 2 <= Dur.DURATION_MAX ->
  exists d, calculate_delay rnd config attempt = Some d /\
            Z.min b (max_delay config) <= d <= Z.min (b + b / 2) (max_delay config).
Proof.
  intros Hb Hi b Hroom. unfold calculate_delay. rewrite Hb. fold b.
  assert (Hb0 : 0 <= b).
  { unfold b, Dur.saturating_mul. pose proof (pow2_nonneg (exponent_of attempt)).
    assert (0 <= initial_delay config * u32_saturating_pow2 (exponent_of attempt))
      by (apply Z.mul_nonneg_nonneg; lia).
    destruct (_ <? _); unfold Dur.DURATION_MAX; lia. }
  set (range := (Dur.as_millis b mod 2 ^ 64) / 2).
  assert (Hrange : range * 1000000 <= b / 2).
  { unfold range, Dur.as_millis.
    assert (0 <= b / 1000000 mod 2 ^ 64 <= b / 1000000).
    { split; [apply Z.mod_pos_bound; lia | apply Z.mod_le; [apply Z.div_pos|]; lia]. }
    set (x := b / 1000000 mod 2 ^ 64) in *. clearbody x.
    Z.div_mod_to_equations. lia. }
  set (j := if 0 <? range then fastrand_u64 rnd range else 0).
  assert (Hj : 0 <= j /\ j * 1000000 <= b / 2).
  { assert (Hb2 : 0 <= b / 2) by (apply Z.div_pos; lia).
    unfold j. destruct (Z.ltb_spec 0 range).
    - unfold fastrand_u64. pose proof (Z.mod_pos_bound (rnd range) range ltac:(lia)). lia.
    - lia. }
  unfold Dur.checked_add, Dur.from_millis.
  destruct (Z.ltb_spec Dur.DURATION_MAX (b + j * 1000000)); [lia|].
  cbn [option_map]. eexists. split; [reflexivity|]. unfold Dur.min. lia.
Qed.

Lemma jitter_delay_bounds_witness :
  exists d, calculate_delay (fun _ => 77) default_retry_config 3 = Some d /\
            Z.min (Dur.from_millis 400) (Dur.from_secs 10) <= d
            <= Z.min (Dur.from_millis 400 + Dur.from_millis 400 / 2) (Dur.from_secs 10).
Proof.
  exact (jitter_delay_bounds (fun _ => 77) default_retry_config 3 eq_refl
           ltac:(cbn; lia) ltac:(vm_compute; discriminate)).
Defined.

Lemma ascii_to_lower_idem (c : ascii) :
  Str.ascii_to_lower (Str.ascii_to_lower c) = Str.ascii_to_lower c.
Proof.
  unfold Str.ascii_to_lower.
  destruct ((65 <=? nat_of_ascii c) && (nat_of_ascii c <=? 90))%nat eqn:H.
  - apply andb_true_iff in H as [H1 H2]. apply Nat.leb_le in H1, H2.
    rewrite nat_ascii_embedding by lia.
    replace ((65 <=? nat_of_ascii c + 32) && (nat_of_ascii c + 32 <=? 90))%nat with false;
      [reflexivity|].
    symmetry. apply andb_false_iff. right. apply Nat.leb_gt. lia.
  - rewrite H. reflexivity.
Qed.

Lemma to_lowercase_idem (s : string) :
  Str.to_lowercase (Str.to_lowercase s) = Str.to_lowercase s.
Proof.
  induction s as [|c s IH]; [reflexivity|]. cbn [Str.to_lowercase].
  now rewrite ascii_to_lower_idem, IH.
Qed.

(** X3.  [is_error_retryable] ignores the case of the message: a message
    and its lowercased form are classified alike. *)
Theorem is_error_retryable_case_insensitive (msg : string) (config : RetryConfig) :
  is_error_retryable (Str.to_lowercase msg) config = is_error_retryable msg config.
Proof. unfold is_error_retryable. now rewrite to_lowercase_idem. Qed.

Lemma is_error_retryable_or (msg : string) (config : RetryConfig) :
  let errs := retryable_errors config in
  let m := Str.to_lowercase msg in
  is_error_retryable msg config =
  has errs All
  || (has errs RateLimit
      && (Str.contains m "rate limit" || Str.contains m "429"
          || Str.contains m "too many requests"))
  || (has errs Timeout && (Str.contains m "timeout" || Str.contains m "timed out"))
  || (has errs ServerError
      && (Str.contains m "500" || Str.contains m "502" || Str.contains m "503"
          || Str.contains m "504" || Str.contains m "internal server error"
          || Str.contains m "bad gateway" || Str.contains m "service unavailable"))
  || (has errs Network
      && (Str.contains m "connection" || Str.contains m "network" || Str.contains m "dns"
          || Str.contains m "resolve" || Str.contains m "unreachable")).
Proof.
  unfold is_error_retryable. cbv zeta.
  rewrite !RetryProofs.if_true_else, orb_false_r, !orb_assoc. reflexivity.
Qed.

(** X4.  Enabling more categories never makes a retryable error
    non-retryable: if every category enabled in [c1] is enabled in [c2],
    an error retryable under [c1] is retryable under [c2]. *)
Theorem is_error_retryable_monotone (msg : string) (c1 c2 : RetryConfig) :
  (forall k, has (retryable_errors c1) k = true -> has (retryable_errors c2) k = true) ->
  is_error_retryable msg c1 = true -> is_error_retryable msg c2 = true.
Proof.
  intros Hsub. rewrite !is_error_retryable_or. cbv zeta.
  rewrite !orb_true_iff, !andb_true_iff.
  intros [[[[H|[H1 H2]]|[H1 H2]]|[H1 H2]]|[H1 H2]]; apply Hsub in H1 || apply Hsub in H; tauto.
Qed.

Lemma is_error_retryable_monotone_witness :
  is_error_retryable "Connection reset" default_retry_config = true.
Proof.
  apply (is_error_retryable_monotone "Connection reset"
           {| max_retries := 3; initial_delay := 0; max_delay := 0; backoff := Fixed;
              retryable_errors := [Network] |} default_retry_config).
  - intros k. destruct k; cbn; congruence.
  - reflexivity.
Defined.

Lemma retry_loop_unfold {T E} (config : RetryConfig) (isr : E -> bool)
    (op : nat -> T + E) (rnd : nat -> Z -> Z) (left attempt : nat) :
  retry_loop config isr op rnd left attempt =
  match op attempt with
  | inl result => Some ([], inl result)
  | inr e =>
      if (max_retries config <? S attempt)%nat then Some ([], inr (Exhausted (S attempt) e))
      else if negb (isr e) then Some ([], inr (NotRetryable e))
      else
        match calculate_delay (rnd (S attempt)) config (Z.of_nat (S attempt)) with
        | None => None
        | Some delay =>
            match left with
            | O => Some ([], inr (Exhausted (S attempt) e))
            | S left' =>
                option_map (fun r => (delay :: fst r, snd r))
                  (retry_loop config isr op rnd left' (S attempt))
            end
        end
  end.
Proof. destruct left; reflexivity. Qed.

Lemma retry_loop_result {T E} (config : RetryConfig) (isr : E -> bool)
    (op : nat -> T + E) (rnd : nat -> Z -> Z) :
  forall left attempt ds r,
  (attempt + left = max_retries config)%nat ->
  retry_loop config isr op rnd left attempt = Some (ds, r) ->
  (attempt + List.length ds <= max_retries config)%nat /\
  (forall n, (attempt <= n < attempt + List.length ds)%nat ->
             exists e, op n = inr e /\ isr e = true) /\
  (forall t, r = inl t -> op (attempt + List.length ds)%nat = inl t) /\
  (forall err, r = inr err ->
     op (attempt + List.length ds)%nat = inr (into_inner err) /\
     (is_exhausted err = true ->
        attempts err = Some (S (max_retries config)) /\
        (attempt + List.length ds)%nat = max_retries config) /\
     (is_exhausted err = false ->
        isr (into_inner err) = false /\ (attempt + List.length ds < max_retries config)%nat)) /\
  (forall op', (forall n, (attempt <= n <= attempt + List.length ds)%nat -> op' n = op n) ->
     retry_loop config isr op' rnd left attempt = Some (ds, r)).
Proof.
  induction left as [|l IH]; intros attempt ds r Hinv H;
    rewrite retry_loop_unfold in H; destruct (op attempt) as [t|e] eqn:Eop.
  1, 3: injection H as <- <-; cbn [List.length]; rewrite Nat.add_0_r;
    split; [lia|]; split; [intros n Hn; lia|]; split; [intros t' Ht; congruence|];
    split; [intros err Herr; discriminate|];
    intros op' Hop; rewrite retry_loop_unfold, Hop, Eop by lia; reflexivity.
  - destruct (Nat.ltb_spec (max_retries config) (S attempt)).
    + injection H as <- <-. cbn [List.length]. rewrite Nat.add_0_r.
      split; [lia|]. split; [intros n Hn; lia|]. split; [intros t' Ht; discriminate|].
      split.
      * intros err Herr. injection Herr as <-. cbn. split; [exact Eop|].
        split; [intros _; split; [f_equal; lia | lia] | discriminate].
      * intros op' Hop. rewrite retry_loop_unfold, Hop, Eop by lia.
        destruct (Nat.ltb_spec (max_retries config) (S attempt)); [reflexivity | lia].
    + lia.
  - destruct (Nat.ltb_spec (max_retries config) (S attempt)); [lia|].
    destruct (isr e) eqn:Hr; cbn [negb] in H.
    + destruct (calculate_delay _ _ _) as [d|] eqn:Hc; [|discriminate].
      destruct (retry_loop config isr op rnd l (S attempt)) as [[ds' r']|] eqn:Er;
        [|discriminate].
      cbn in H. injection H as <- <-.
      destruct (IH (S attempt) ds' r' ltac:(lia) Er) as (H1 & H2 & H3 & H4 & H5).
      cbn [List.length]. rewrite <- plus_n_Sm.
      split; [lia|]. split; [|split; [exact H3 | split; [exact H4|]]].
      * intros n Hn. destruct (Nat.eq_dec n attempt) as [->|Hne].
        -- exists e. auto.
        -- apply H2. lia.
      * intros op' Hop. rewrite retry_loop_unfold, Hop by lia. rewrite Eop.
        destruct (Nat.ltb_spec (max_retries config) (S attempt)); [lia|].
        rewrite Hr. cbn [negb]. rewrite Hc.
        rewrite (H5 op'); [reflexivity|]. intros n Hn. apply Hop. lia.
    + injection H as <- <-. cbn [List.length]. rewrite Nat.add_0_r.
      split; [lia|]. split; [intros n Hn; lia|]. split; [intros t' Ht; discriminate|].
      split.
      * intros err Herr. injection Herr as <-. cbn. split; [exact Eop|].
        split; [discriminate | intros _; split; [exact Hr | lia]].
      * intros op' Hop. rewrite retry_loop_unfold, Hop, Eop by lia.
        destruct (Nat.ltb_spec (max_retries config) (S attempt)); [lia|].
        rewrite Hr. reflexivity.
Qed.

(** X5.  Whatever [with_retry] returns without panicking, after sleeping
    the delays [ds]: the operation was called [length ds + 1 <=
    max_retries + 1] times, every call but the last failed with a
    retryable error, and the last call decides the result; an [Exhausted]
    error reports [max_retries + 1] attempts, a [NotRetryable] one comes
    from a non-retryable error before the limit; and the calls after the
    last one never happen (another operation agreeing on them gives the
    same result). *)
Theorem with_retry_outcome {T E} (config : RetryConfig) (is_retryable : E -> bool)
    (operation : nat -> T + E) (rnd : nat -> Z -> Z) ds r :
  with_retry config is_retryable operation rnd = Some (ds, r) ->
  (List.length ds <= max_retries config)%nat /\
  (forall n, (n < List.length ds)%nat -> exists e, operation n = inr e /\ is_retryable e = true) /\
  (forall t, r = inl t -> operation (List.length ds) = inl t) /\
  (forall err, r = inr err ->
     operation (List.length ds) = inr (into_inner err) /\
     (is_exhausted err = true ->
        attempts err = Some (S (max_retries config)) /\ List.length ds = max_retries config) /\
     (is_exhausted err = false ->
        is_retryable (into_inner err) = false /\ (List.length ds < max_retries config)%nat)) /\
  (forall operation', (forall n, (n <= List.length ds)%nat -> operation' n = operation n) ->
     with_retry config is_retryable operation' rnd = Some (ds, r)).
Proof.
  intros H. unfold with_retry in *.
  destruct (retry_loop_result config is_retryable operation rnd _ 0 ds r eq_refl H)
    as (H1 & H2 & H3 & H4 & H5).
  cbn [Nat.add] in *.
  split; [exact H1|]. split; [intros n Hn; apply H2; lia|].
  split; [exact H3|]. split; [exact H4|].
  intros op' Hop. apply H5. intros n Hn. apply Hop. lia.
Qed.

(** Calls answered: a network error, then a success. *)
Definition flaky_op (n : nat) : string + string :=
  if Nat.eqb n 0 then inr "Connection refused" else inl "data".

Definition fixed_config : RetryConfig :=
  {| max_retries := 2; initial_delay := Dur.from_millis 10; max_delay := Dur.from_secs 1;
     backoff := Fixed; retryable_errors := [Network] |}.

Lemma with_retry_outcome_witness :
  let ds := [Dur.from_millis 10] in
  let r : string + RetryError string := inl "data" in
  (List.length ds <= max_retries fixed_config)%nat /\
  (forall n, (n < List.length ds)%nat -> exists e, flaky_op n = inr e /\
                                      is_error_retryable e fixed_config = true) /\
  (forall t, r = inl t -> flaky_op (List.length ds) = inl t) /\
  (forall err, r = inr err ->
     flaky_op (List.length ds) = inr (into_inner err) /\
     (is_exhausted err = true ->
        attempts err = Some (S (max_retries fixed_config)) /\
        List.length ds = max_retries fixed_config) /\
     (is_exhausted err = false ->
        is_error_retryable (into_inner err) fixed_config = false /\
        (List.length ds < max_retries fixed_config)%nat)) /\
  (forall operation', (forall n, (n <= List.length ds)%nat -> operation' n = flaky_op n) ->
     with_retry_default fixed_config operation' (fun _ _ => 0) = Some (ds, r)).
Proof.
  apply (with_retry_outcome fixed_config (fun e => is_error_retryable e fixed_config)
           flaky_op (fun _ _ => 0)).
  reflexivity.
Defined.

Lemma delay_some (rnd : Z -> Z) (config : RetryConfig) (a : Z) :
  backoff config <> ExponentialJitter -> exists d, calculate_delay rnd config a = Some d.
Proof.
  intros H. unfold calculate_delay. destruct (backoff config); [eexists; reflexivity .. | easy].
Qed.

Lemma retry_loop_prefix {T E} (config : RetryConfig) (isr : E -> bool)
    (op : nat -> T + E) (rnd : nat -> Z -> Z) :
  backoff config <> ExponentialJitter ->
  forall left attempt k,
  (attempt + left = max_retries config)%nat -> (attempt <= k <= max_retries config)%nat ->
  (forall n, (attempt <= n < k)%nat -> exists e, op n = inr e /\ isr e = true) ->
  exists ds,
    map Some ds = map (fun n => calculate_delay (rnd n) config (Z.of_nat n))
                    (seq (S attempt) (k - attempt)) /\
    retry_loop config isr op rnd left attempt
    = option_map (fun p => ((ds ++ fst p)%list, snd p))
        (retry_loop config isr op rnd (left - (k - attempt)) k).
Proof.
  intros Hb. induction left as [|l IH]; intros attempt k Hinv Hk Hfail.
  - assert (k = attempt) by lia. subst k. rewrite Nat.sub_diag. exists [].
    split; [reflexivity|]. cbn [Nat.sub].
    destruct (retry_loop _ _ _ _ _ _) as [[a b]|]; reflexivity.
  - destruct (Nat.eq_dec k attempt) as [->|Hne].
    + rewrite Nat.sub_diag. exists []. split; [reflexivity|]. rewrite Nat.sub_0_r.
      destruct (retry_loop _ _ _ _ _ _) as [[a b]|]; reflexivity.
    + destruct (Hfail attempt ltac:(lia)) as (e & Eop & Hr).
      destruct (IH (S attempt) k ltac:(lia) ltac:(lia)) as (ds' & Hds' & Hl).
      { intros n Hn. apply Hfail. lia. }
      destruct (delay_some (rnd (S attempt)) config (Z.of_nat (S attempt)) Hb) as (d & Hd).
      exists (d :: ds'). split.
      * replace (k - attempt)%nat with (S (k - S attempt)) by lia.
        cbn [seq map]. rewrite Hd, Hds'. reflexivity.
      * rewrite retry_loop_unfold, Eop.
        destruct (Nat.ltb_spec (max_retries config) (S attempt)); [lia|].
        rewrite Hr. cbn [negb]. rewrite Hd, Hl.
        replace (S l - (k - attempt))%nat with (l - (k - S attempt))%nat by lia.
        destruct (retry_loop config isr op rnd (l - (k - S attempt)) k) as [[a b]|];
          reflexivity.
Qed.

(** X6.  With a backoff other than [ExponentialJitter], when the first
    [k <= max_retries] calls fail with retryable errors, [with_retry]
    sleeps the delays [calculate_delay(1..k)] and the call [k] decides:
    a success is returned; a failure at [k = max_retries] gives
    [Exhausted] with [k + 1] attempts, retryable or not; a non-retryable
    failure before the limit gives [NotRetryable]. *)
Theorem with_retry_after_failures {T E} (config : RetryConfig) (is_retryable : E -> bool)
    (operation : nat -> T + E) (rnd : nat -> Z -> Z) (k : nat) :
  backoff config <> ExponentialJitter ->
  (k <= max_retries config)%nat ->
  (forall n, (n < k)%nat -> exists e, operation n = inr e /\ is_retryable e = true) ->
  exists ds,
    map Some ds = map (fun n => calculate_delay (rnd n) config (Z.of_nat n)) (seq 1 k) /\
    (forall t, operation k = inl t ->
       with_retry config is_retryable operation rnd = Some (ds, inl t)) /\
    (forall e, operation k = inr e -> k = max_retries config ->
       with_retry config is_retryable operation rnd = Some (ds, inr (Exhausted (S k) e))) /\
    (forall e, operation k = inr e -> (k < max_retries config)%nat -> is_retryable e = false ->
       with_retry config is_retryable operation rnd = Some (ds, inr (NotRetryable e))).
Proof.
  intros Hb Hk Hfail.
  destruct (retry_loop_prefix config is_retryable operation rnd Hb
              (max_retries config) 0 k eq_refl ltac:(lia)) as (ds & Hds & Hl).
  { intros n Hn. apply Hfail. lia. }
  rewrite Nat.sub_0_r in Hds, Hl.
  exists ds. split; [exact Hds|]. unfold with_retry. rewrite Hl.
  split; [|split]; intros x Ex; rewrite retry_loop_unfold, Ex.
  - cbn. rewrite app_nil_r. reflexivity.
  - intros Hkm. destruct (Nat.ltb_spec (max_retries config) (S k)); [|lia].
    cbn. rewrite app_nil_r. reflexivity.
  - intros Hkm Hr. destruct (Nat.ltb_spec (max_retries config) (S k)); [lia|].
    rewrite Hr. cbn. rewrite app_nil_r. reflexivity.
Qed.

(** Calls answered: two network errors, then a refused request. *)
Definition failing_op (n : nat) : unit + string :=
  match n with
  | O | S O => inr "Network unreachable"
  | _ => inr "Permission denied"
  end.

Lemma with_retry_after_failures_witness :
  exists ds,
    map Some ds = map (fun n => calculate_delay ((fun _ _ => 0) n) fixed_config (Z.of_nat n))
                    (seq 1 2) /\
    (forall t, failing_op 2 = inl t ->
       with_retry_default fixed_config failing_op (fun _ _ => 0) = Some (ds, inl t)) /\
    (forall e, failing_op 2 = inr e -> 2%nat = max_retries fixed_config ->
       with_retry_default fixed_config failing_op (fun _ _ => 0)
       = Some (ds, inr (Exhausted 3 e))) /\
    (forall e, failing_op 2 = inr e -> (2 < max_retries fixed_config)%nat ->
       is_error_retryable e fixed_config = false ->
       with_retry_default fixed_config failing_op (fun _ _ => 0)
       = Some (ds, inr (NotRetryable e))).
Proof.
  apply (with_retry_after_failures fixed_config (fun e => is_error_retryable e fixed_config)
           failing_op (fun _ _ => 0) 2).
  - discriminate.
  - cbn. lia.
  - intros n Hn. exists "Network unreachable".
    destruct n as [|[|n]]; [split; reflexivity | split; reflexivity | lia].
Defined.

End RetryExtraProofs.

(** ** The execution context and the registry *)
Module ContextProofs.
Import Json Context.

Lemma lookup_map_insert (k k' : string) (v : value) (m : list (string * value)) :
  lookup k (map_insert k' v m) = if String.eqb k k' then Some v else lookup k m.
Proof.
  induction m as [|[k0 v0] m IH]; cbn [map_insert lookup]; [reflexivity|].
  destruct (String.eqb_spec k' k0) as [->|Hne]; cbn [lookup].
  - destruct (String.eqb k k0); reflexivity.
  - rewrite IH. destruct (String.eqb_spec k k'), (String.eqb_spec k k0); congruence.
Qed.

Lemma map_insert_keys (k : string) (v : value) (m : list (string * value)) :
  NoDup (map fst m) -> NoDup (map fst (map_insert k v m)).
Proof.
  induction m as [|[k0 v0] m IH]; intros Hnd; cbn [map_insert map fst].
  - repeat constructor. intros [].
  - inversion Hnd as [|? ? Hnin Hnd']; subst.
    destruct (String.eqb_spec k k0) as [->|Hne]; cbn [map fst]; [now constructor|].
    constructor; [|now apply IH].
    intros Hin. apply Hnin. clear -Hin Hne.
    induction m as [|[k1 v1] m IH]; cbn [map_insert map fst] in *.
    + destruct Hin as [->|[]]; congruence.
    + destruct (String.eqb k k1); cbn in Hin |- *; intuition.
Qed.

Lemma lookup_notin (k : string) (m : list (string * value)) :
  ~ In k (map fst m) -> lookup k m = None.
Proof.
  induction m as [|[k0 v0] m IH]; cbn; [reflexivity|].
  intros H. destruct (String.eqb_spec k k0); [subst; tauto | apply IH; tauto].
Qed.

Lemma lookup_extend (k : string) (m2 : list (string * value)) :
  NoDup (map fst m2) ->
  forall m1, lookup k (extend m1 m2) =
             match lookup k m2 with Some v => Some v | None => lookup k m1 end.
Proof.
  induction m2 as [|[k0 v0] m2 IH]; intros Hnd m1; [reflexivity|].
  inversion Hnd as [|? ? Hnin Hnd']; subst.
  unfold extend in *. cbn [fold_left fst snd lookup]. rewrite IH by exact Hnd'.
  rewrite lookup_map_insert.
  destruct (String.eqb_spec k k0) as [->|Hne].
  - now rewrite lookup_notin.
  - destruct (lookup k m2); reflexivity.
Qed.

(** X7.  [ExecutionContext::variables]: a step output shadows an input of
    the same name, and an input is seen where no output has its name. *)
Theorem variables_lookup (c : ExecutionContext) (k : string) :
  NoDup (map fst (outputs c)) ->
  lookup k (variables c) =
  match get_output c k with Some v => Some v | None => get_input c k end.
Proof. intros Hnd. unfold variables, get_output, get_input. now apply lookup_extend. Qed.

Definition ctx_example : ExecutionContext :=
  set_output (with_input (with_input new "q" (VString "in")) "fetch" (Number 1))
    "fetch" (Number 2).

Lemma variables_lookup_witness :
  lookup "fetch" (variables ctx_example) = Some (Number 2) /\
  lookup "fetch" (variables ctx_example) =
  match get_output ctx_example "fetch" with
  | Some v => Some v | None => get_input ctx_example "fetch"
  end.
Proof.
  split; [reflexivity|].
  apply (variables_lookup ctx_example "fetch"). cbn. repeat constructor. intros [].
Defined.

(** X8.  [set_output] then [get_output] gives the value back, leaves the
    other step names alone, and keeps the output names distinct; after
    [clear_outputs] the variables are the inputs. *)
Theorem set_output_get_output (c : ExecutionContext) (k k' : string) (v : value) :
  get_output (set_output c k v) k = Some v /\
  (k' <> k -> get_output (set_output c k v) k' = get_output c k') /\
  (NoDup (map fst (outputs c)) -> NoDup (map fst (outputs (set_output c k v)))) /\
  lookup k' (variables (clear_outputs c)) = get_input c k'.
Proof.
  unfold get_output, set_output, variables, clear_outputs, get_input. cbn [outputs inputs].
  split; [rewrite lookup_map_insert, String.eqb_refl; reflexivity|].
  split; [intros Hne; rewrite lookup_map_insert; apply String.eqb_neq in Hne; now rewrite Hne|].
  split; [apply map_insert_keys | reflexivity].
Qed.

Lemma set_output_get_output_witness :
  get_output (set_output ctx_example "a" Null) "a" = Some Null /\
  ("fetch" <> "a" -> get_output (set_output ctx_example "a" Null) "fetch"
                     = get_output ctx_example "fetch") /\
  (NoDup (map fst (outputs ctx_example)) ->
   NoDup (map fst (outputs (set_output ctx_example "a" Null)))) /\
  lookup "fetch" (variables (clear_outputs ctx_example)) = get_input ctx_example "fetch".
Proof. exact (set_output_get_output ctx_example "a" "fetch" Null). Defined.

End ContextProofs.

Module RegistryProofs.
Import Exec Registry.

Lemma get_insert {A} (k k' : string) (v : A) (m : list (string * A)) :
  get_entry k (insert k' v m) = if String.eqb k k' then Some v else get_entry k m.
Proof.
  induction m as [|[k0 v0] m IH]; cbn [insert get_entry]; [reflexivity|].
  destruct (String.eqb_spec k' k0) as [->|Hne]; cbn [get_entry].
  - destruct (String.eqb k k0); reflexivity.
  - rewrite IH. destruct (String.eqb_spec k k'), (String.eqb_spec k k0); congruence.
Qed.

Lemma insert_keys {A} (k : string) (v : A) (m : list (string * A)) :
  incl (map fst (insert k v m)) (k :: map fst m) /\
  (NoDup (map fst m) -> NoDup (map fst (insert k v m))).
Proof.
  induction m as [|[k0 v0] m IH]; cbn [insert map fst].
  - split; [apply incl_refl | intros _; repeat constructor; intros []].
  - destruct IH as [IHi IHn]. destruct (String.eqb_spec k k0) as [->|Hne]; cbn [map fst].
    + split; [intros x Hx; cbn in *; tauto | exact id].
    + split.
      * intros x [Hx|Hx]; [right; left; exact Hx|].
        apply IHi in Hx. cbn in Hx |- *. tauto.
      * intros Hnd. inversion Hnd as [|? ? Hnin Hnd']; subst.
        constructor; [|now apply IHn].
        intros Hin. apply IHi in Hin. destruct Hin as [->|Hin]; [congruence | tauto].
Qed.

Lemma remove_spec {A} (k : string) (m : list (string * A)) :
  NoDup (map fst m) ->
  fst (remove k m) = get_entry k m /\
  get_entry k (snd (remove k m)) = None /\
  (forall k', k' <> k -> get_entry k' (snd (remove k m)) = get_entry k' m) /\
  incl (map fst (snd (remove k m))) (map fst m) /\
  NoDup (map fst (snd (remove k m))).
Proof.
  induction m as [|[k0 v0] m IH]; intros Hnd.
  - cbn. repeat split; try reflexivity. apply incl_refl. constructor.
  - inversion Hnd as [|? ? Hnin Hnd']; subst. cbn [remove get_entry].
    destruct (String.eqb_spec k k0) as [->|Hne].
    + cbn [fst snd]. split; [reflexivity|]. split.
      * clear -Hnin. induction m as [|[k1 v1] m IH]; cbn in *; [reflexivity|].
        destruct (String.eqb_spec k0 k1); [subst; tauto | apply IH; tauto].
      * split; [|split; [intros x Hx; now right | exact Hnd']].
        intros k' Hk'. apply String.eqb_neq in Hk'. now rewrite Hk'.
    + destruct (IH Hnd') as (H1 & H2 & H3 & H4 & H5).
      destruct (remove k m) as [r m''] eqn:Er. cbn [fst snd map get_entry] in *.
      rewrite (proj2 (String.eqb_neq k k0) Hne).
      split; [exact H1|]. split; [exact H2|]. split.
      * intros k' Hk'. rewrite H3 by exact Hk'. reflexivity.
      * split.
        -- intros x [Hx|Hx]; [now left | right; now apply H4].
        -- constructor; [intros Hin; apply H4 in Hin; tauto | exact H5].
Qed.

(** X9.  [SkillRegistry]: [register] makes the skill available under its
    name and replaces an earlier skill of that name, leaving the other
    names alone; [unregister] returns what [get] would have returned and
    removes only that name; the names listed stay distinct. *)
Theorem registry_register_unregister (r : SkillRegistry) (skill : Skill) (n n' : string) :
  NoDup (list_names r) ->
  get (register r skill) (skill_name skill) = Some skill /\
  (n <> skill_name skill -> get (register r skill) n = get r n) /\
  NoDup (list_names (register r skill)) /\
  fst (unregister r n) = get r n /\
  get (snd (unregister r n)) n = None /\
  (n' <> n -> get (snd (unregister r n)) n' = get r n') /\
  NoDup (list_names (snd (unregister r n))).
Proof.
  intros Hnd. unfold get, register, list_names, unregister in *. cbn [skills].
  split; [rewrite get_insert, String.eqb_refl; reflexivity|].
  split; [intros Hne; rewrite get_insert; apply String.eqb_neq in Hne; now rewrite Hne|].
  split; [now apply insert_keys|].
  destruct (remove_spec n (skills r) Hnd) as (H1 & H2 & H3 & H4 & H5).
  destruct (remove n (skills r)) as [removed rest]. cbn [fst snd skills] in *.
  repeat split; auto.
Qed.

Definition demo_skill (nm : string) : Skill :=
  {| skill_name := nm; description := "demo"; inputs := []; steps := [] |}.

Lemma registry_register_unregister_witness :
  let r := register (register new (demo_skill "a")) (demo_skill "b") in
  get (register r (demo_skill "a")) "a" = Some (demo_skill "a") /\
  ("b" <> "a" -> get (register r (demo_skill "a")) "b" = get r "b") /\
  NoDup (list_names (register r (demo_skill "a"))) /\
  fst (unregister r "b") = get r "b" /\
  get (snd (unregister r "b")) "b" = None /\
  ("a" <> "b" -> get (snd (unregister r "b")) "a" = get r "a") /\
  NoDup (list_names (snd (unregister r "b"))).
Proof.
  intros r. apply (registry_register_unregister r (demo_skill "a") "b" "a").
  cbn. repeat constructor; cbn; intuition discriminate.
Defined.

End RegistryProofs.

(** ** Further properties of the default executor *)
Module ExecExtraProofs.
Import Json Retry Subst Exec.

(** The number of transport calls a skill's steps may make: one call plus
    the step's effective retries, for each step. *)
Fixpoint call_budget (config : ExecutionConfig) (steps_ : list SkillStep) : nat :=
  match steps_ with
  | [] => O
  | step :: rest => (S (max_retries (step_retry_config config step)) + call_budget config rest)%nat
  end.

Section Bounds.
Variable transport : Transport.
Variable rng : nat -> Z -> Z.

(** [c] makes at most [n] transport calls, whatever its outcome. *)
Definition calls_le {A} (c : M A) (n : nat) : Prop :=
  forall st, (calls (fst (c st)) <= calls st + n)%nat.

Lemma calls_ret {A} (a : A) n : calls_le (ret a) n.
Proof. intros st. cbn. lia. Qed.

Lemma calls_emit ev n : calls_le (emit ev) n.
Proof. intros st. cbn. lia. Qed.

Lemma calls_now n : calls_le now n.
Proof. intros st. cbn. lia. Qed.

Lemma calls_set_output k v n : calls_le (set_output k v) n.
Proof. intros st. cbn. lia. Qed.

Lemma calls_variables ctx_inputs n : calls_le (variables ctx_inputs) n.
Proof. intros st. cbn. lia. Qed.

Lemma calls_suspend deadline d n : calls_le (suspend deadline d) n.
Proof.
  intros st. unfold suspend. destruct deadline; [destruct (_ <=? _)|]; cbn; lia.
Qed.

Lemma calls_next_delay rc a n : calls_le (next_delay rng rc a) n.
Proof. intros st. unfold next_delay. destruct (calculate_delay _ _ _); cbn; lia. Qed.

Lemma calls_call deadline tmo tc : calls_le (call_with_timeout transport deadline tmo tc) 1.
Proof.
  intros st. unfold call_with_timeout. destruct (transport (calls st) tc) as [d0 r].
  cbv zeta. destruct (_ <=? _); unfold bind, suspend, ret;
    destruct deadline; try destruct (_ <=? _); cbn; lia.
Qed.

Lemma calls_bind {A B} (c : M A) (k : A -> M B) a b n :
  calls_le c a -> (forall x, calls_le (k x) b) -> (a + b <= n)%nat -> calls_le (bind c k) n.
Proof.
  intros Hc Hk Hn st. unfold bind. specialize (Hc st).
  destruct (c st) as [st1 [x| |]]; cbn [fst] in *; [specialize (Hk x st1)|..]; lia.
Qed.

Lemma calls_bind0 {A B} (c : M A) (k : A -> M B) n :
  calls_le c 0 -> (forall x, calls_le (k x) n) -> calls_le (bind c k) n.
Proof. intros Hc Hk. apply (calls_bind c k 0 n n Hc Hk). lia. Qed.

Lemma calls_catch_cut {A} (c h : M A) a b n :
  calls_le c a -> calls_le h b -> (a + b <= n)%nat -> calls_le (catch_cut c h) n.
Proof.
  intros Hc Hh Hn st. unfold catch_cut. specialize (Hc st).
  destruct (c st) as [st1 [x| |]]; cbn [fst] in *; [| specialize (Hh st1) |]; lia.
Qed.

Lemma calls_prepare_call ctx_inputs step : calls_le (prepare_call ctx_inputs step) 0.
Proof.
  unfold prepare_call. apply calls_bind0; [apply calls_variables | intros; apply calls_ret].
Qed.

Ltac calls_atom :=
  first [ apply calls_ret | apply calls_emit | apply calls_now | apply calls_set_output
        | apply calls_variables | apply calls_suspend | apply calls_next_delay
        | apply calls_prepare_call ].

Ltac calls_step :=
  first
    [ apply calls_bind0; [calls_atom | intros ?]
    | apply calls_bind0; [solve [repeat calls_step] | intros ?]
    | calls_atom
    | match goal with
      | |- calls_le (match ?x with _ => _ end) _ => destruct x
      | |- calls_le (if ?b then _ else _) _ => destruct b
      end ].

Lemma calls_attempt_loop deadline tc step tmo rc left attempts :
  calls_le (attempt_loop transport rng deadline tc step tmo rc left attempts) (S left).
Proof.
  revert attempts. induction left as [|l IH]; intros attempts;
    rewrite ExecProofs.attempt_loop_unfold.
  - apply (calls_bind _ _ 1 0 _ (calls_call _ _ _)); [intros ? | lia].
    repeat calls_step.
  - apply (calls_bind _ _ 1 (S l) _ (calls_call _ _ _)); [intros ? | lia].
    repeat calls_step; apply IH.
Qed.

Lemma calls_execute_steps deadline config ctx_inputs total steps_ index results :
  calls_le (execute_steps transport rng deadline config ctx_inputs total steps_ index results)
    (call_budget config steps_).
Proof.
  revert index results. induction steps_ as [|step rest IH]; intros index results.
  - apply calls_ret.
  - cbn [execute_steps call_budget]. cbv zeta.
    do 3 calls_step.
    apply (calls_bind _ _ _ (call_budget config rest) _ (calls_attempt_loop _ _ _ _ _ _ _)); [intros ? | lia].
    repeat calls_step; apply IH.
Qed.

Lemma calls_on_skill_timeout config : calls_le (on_skill_timeout config) 0.
Proof. unfold on_skill_timeout. repeat calls_step. Qed.

Lemma calls_execute skill config ctx_inputs :
  calls_le (execute transport rng skill config ctx_inputs) (call_budget config (steps skill)).
Proof.
  unfold execute.
  do 2 calls_step.
  apply (calls_bind _ _ _ 0 _
           (calls_catch_cut _ _ (call_budget config (steps skill)) 0
                 (call_budget config (steps skill))
              (calls_execute_steps _ _ _ _ _ _ _)
              (calls_on_skill_timeout _) ltac:(lia))); [intros ? | lia].
  repeat calls_step.
Qed.

Lemma calls_execute_step step config ctx_inputs :
  calls_le (execute_step transport rng step config ctx_inputs)
    (S (max_retries (step_retry_config config step))).
Proof.
  unfold execute_step. cbv zeta.
  do 3 calls_step.
  apply (calls_bind _ _ _ 0 _ (calls_attempt_loop _ _ _ _ _ _ _)); [intros ? | lia].
  repeat calls_step.
Qed.

(** X10.  A run of [execute] makes at most one transport call plus the
    effective retries per step ([call_budget]), and a run of
    [execute_step] at most one call plus the step's effective retries,
    whatever the transport answers and however the run ends. *)
Theorem execute_calls_bound :
  (forall skill config ctx_inputs st,
     (calls (fst (execute transport rng skill config ctx_inputs st))
      <= calls st + call_budget config (steps skill))%nat) /\
  (forall step config ctx_inputs st,
     (calls (fst (execute_step transport rng step config ctx_inputs st))
      <= calls st + S (max_retries (step_retry_config config step)))%nat).
Proof.
  split; [intros skill config ctx_inputs; apply calls_execute
         | intros step config ctx_inputs; apply calls_execute_step].
Qed.

(** X11.  [execute_step] returns [Ok] only with a successful step result
    for that step, and its only error is [SkillError::Execution], whose
    message is either the error text of a tool result with
    [success = false] (empty when it has none), or the [Display] text of
    the error of the step's retry loop, which is the step's
    [RetryExhausted] or its [StepTimeout]. *)
Theorem execute_step_outcome step config ctx_inputs st st' o :
  execute_step transport rng step config ctx_inputs st = (st', o) ->
  (forall sr, o = Done (inl sr) ->
     sr_success sr = true /\ step_name sr = name step /\ sr_error sr = None) /\
  (forall e, o = Done (inr e) ->
     exists tc st1 st2 r,
       attempt_loop transport rng None tc step (step_timeout_of config step)
         (step_retry_config config step) (max_retries (step_retry_config config step)) 0 st1
       = (st2, Done r) /\
       match r with
       | inl (tr, _) =>
           tr_success tr = false /\
           e = Execution (match tr_error tr with Some m => m | None => EmptyString end)
       | inr e' =>
           e = Execution (error_to_string e') /\
           ((exists a m, e' = RetryExhausted (name step) a m) \/
            e' = StepTimeout (name step) (step_timeout_of config step))
       end).
Proof.
  unfold execute_step, prepare_call, variables, emit, now, set_output, ret, bind.
  cbv beta iota zeta.
  match goal with
  | |- context [attempt_loop ?a1 ?a2 ?a3 ?a4 ?a5 ?a6 ?a7 ?a8 ?a9 ?a10] =>
      destruct (attempt_loop a1 a2 a3 a4 a5 a6 a7 a8 a9 a10) as [st2 [[[tr att]|e']| |]]
        eqn:Ea
  end; cbv beta iota zeta.
  - destruct (tr_data tr); cbv beta iota zeta;
      destruct (tr_success tr) eqn:Hs; cbn [sr_success]; intros H; injection H as _ <-;
      (split; [intros sr Hsr; try discriminate; injection Hsr as <-; cbn; auto
              | intros e He;
                first [ discriminate
                      | injection He as <-; do 3 eexists; exists (inl (tr, att));
                        split; [exact Ea | split; [exact Hs | reflexivity]] ]]).
  - cbn [sr_success]. intros H. injection H as _ <-.
    split; [intros sr Hsr; discriminate|].
    intros e He; injection He as <-. do 3 eexists. exists (inr e').
    split; [exact Ea|]. split; [reflexivity|].
    exact (ExecProofs.attempt_loop_err _ _ _ _ _ _ _ _ _ _ _ _ Ea).
  - intros H. injection H as _ <-. split; intros; discriminate.
  - intros H. injection H as _ <-. split; intros; discriminate.
Qed.

Lemma execute_steps_ok_shape deadline config ctx_inputs total :
  forall steps_ pre index results st st' r,
  map fst results = map name pre ->
  (List.length pre + List.length steps_ = total)%nat ->
  execute_steps transport rng deadline config ctx_inputs total steps_ index results st
  = (st', Done (inl r)) ->
  (exists k, map fst (step_results r) = map name ((pre ++ firstn k steps_)%list)) /\
  (sk_success r = true ->
     map fst (step_results r) = map name ((pre ++ steps_)%list) /\ sk_error r = None) /\
  (sk_success r = false -> exists m, sk_error r = Some m).
Proof.
  induction steps_ as [|step rest IH]; intros pre index results st st' r Hpre Hlen.
  - cbn [execute_steps]. unfold ret. intros H. injection H as _ <-. cbn.
    rewrite app_nil_r. split; [exists O; cbn; rewrite app_nil_r; exact Hpre|].
    split; [intros _; split; [exact Hpre | reflexivity] | discriminate].
  - assert (Hrl : List.length results = List.length pre).
    { rewrite <- (length_map fst results), Hpre, length_map. reflexivity. }
    assert (Hcons : forall tr,
               map fst ((results ++ [(name step, tr)])%list) = map name ((pre ++ [step])%list)).
    { intros tr. rewrite !map_app, Hpre. reflexivity. }
    assert (Hlen' : (List.length ((pre ++ [step])%list) + List.length rest = total)%nat).
    { rewrite length_app. cbn in Hlen |- *. lia. }
    assert (Hnext : forall tr st1,
       execute_steps transport rng deadline config ctx_inputs total rest (S index)
         ((results ++ [(name step, tr)])%list) st1 = (st', Done (inl r)) ->
       (exists k, map fst (step_results r) = map name ((pre ++ firstn k (step :: rest))%list)) /\
       (sk_success r = true ->
          map fst (step_results r) = map name ((pre ++ step :: rest)%list) /\ sk_error r = None) /\
       (sk_success r = false -> exists m, sk_error r = Some m)).
    { intros tr st1 H.
      destruct (IH ((pre ++ [step])%list) (S index) _ st1 st' r (Hcons tr) Hlen' H)
        as ((k & Hk) & Hs & Hf).
      rewrite <- app_assoc in Hk, Hs. split; [exists (S k); exact Hk | split; [exact Hs | exact Hf]]. }
    cbn [execute_steps]. unfold prepare_call, variables, emit, now, set_output, ret, bind.
    cbv beta iota zeta.
    match goal with
    | |- context [attempt_loop ?a1 ?a2 ?a3 ?a4 ?a5 ?a6 ?a7 ?a8 ?a9 ?a10] =>
        destruct (attempt_loop a1 a2 a3 a4 a5 a6 a7 a8 a9 a10) as [st2 [[[tr att]|e]| |]]
    end; cbv beta iota zeta; try discriminate.
    + destruct (Nat.eqb_spec (List.length ((results ++ [(name step, tr)])%list)) total) as [Hl|Hl].
      * intros H. injection H as _ <-. cbn [step_results sk_success sk_error].
        rewrite length_app in Hl. cbn in Hl, Hlen.
        assert (rest = []) as -> by (destruct rest; [reflexivity | cbn in Hlen; lia]).
        split; [exists 1%nat; apply Hcons|].
        split; [intros _; split; [apply Hcons | reflexivity] | discriminate].
      * apply Hnext.
    + destruct (continue_on_error step); [apply Hnext|].
      destruct (timeout_action (timeout config)); [discriminate | apply Hnext |].
      intros H. injection H as _ <-. cbn [step_results sk_success sk_error].
      split; [exists O; cbn; rewrite app_nil_r; exact Hpre|].
      split; [discriminate | intros _; eexists; reflexivity].
Qed.

(** X12.  When [execute] returns [Ok], its step results are named after
    the first steps of the skill, in order, at most one per step; a
    successful result has one entry per step and no error message, and
    an unsuccessful one always carries an error message. *)
Theorem execute_ok_shape skill config ctx_inputs st st' r :
  execute transport rng skill config ctx_inputs st = (st', Done (inl r)) ->
  (exists k, map fst (step_results r) = map name (firstn k (steps skill))) /\
  (sk_success r = true -> map fst (step_results r) = map name (steps skill) /\ sk_error r = None) /\
  (sk_success r = false -> exists m, sk_error r = Some m).
Proof.
  rewrite ExecProofs.execute_run. unfold catch_cut.
  match goal with
  | |- context [execute_steps ?a1 ?a2 ?a3 ?a4 ?a5 ?a6 ?a7 ?a8 ?a9 ?a10] =>
      destruct (execute_steps a1 a2 a3 a4 a5 a6 a7 a8 a9 a10) as [st2 [[r'|e]| |]] eqn:Es
  end; try discriminate.
  - intros H. injection H as _ <-.
    exact (execute_steps_ok_shape _ _ _ _ (steps skill) [] 0 [] _ _ _ eq_refl eq_refl Es).
  - unfold on_skill_timeout.
    destruct (timeout_action (timeout config)); cbn; try discriminate;
      intros H; injection H as _ <-; cbn;
      (split; [exists O; reflexivity | split; [discriminate | intros _; eexists; reflexivity]]).
Qed.

(** X13.  A skill without steps makes no call and succeeds at once with
    no step results, whatever the configuration (a zero skill timeout
    included): the hooks see [before_skill] then [after_skill]. *)
Theorem execute_empty_skill skill config ctx_inputs st :
  steps skill = [] ->
  let r := {| sk_success := true; step_results := []; sk_output := None; sk_error := None |} in
  execute transport rng skill config ctx_inputs st =
  ({| outputs := outputs st;
      trace := (trace st ++ [BeforeSkill (skill_name skill); AfterSkill r])%list;
      clock := clock st; calls := calls st; draws := draws st |},
   Done (inl r)).
Proof.
  intros Hs r. unfold execute, emit, now, bind, catch_cut. rewrite Hs.
  cbn. rewrite <- app_assoc. reflexivity.
Qed.

End Bounds.

Definition x_transport : Transport :=
  fun n _ => if Nat.eqb n 0 then (Dur.from_millis 5, TErr "Network unreachable")
             else (Dur.from_millis 5, TOk {| tr_success := true; tr_data := Some (Number 3);
                                             tr_error := None; tr_duration_ms := None |}).

Definition x_step (nm : string) : SkillStep :=
  {| name := nm; tool := "fetch"; arguments := Object []; continue_on_error := false;
     timeout_secs := None; step_max_retries := None |}.

Definition x_skill : Skill :=
  {| skill_name := "pipeline"; description := "two steps"; inputs := [];
     steps := [x_step "first"; x_step "second"] |}.

Definition x_config : ExecutionConfig :=
  {| timeout := default_timeout_config;
     retry := {| max_retries := 2; initial_delay := Dur.from_millis 10;
                 max_delay := Dur.from_secs 1; backoff := Fixed;
                 retryable_errors := [Network] |} |}.

Definition x_fail_transport : Transport :=
  fun _ _ => (Dur.from_millis 5, TErr "Permission denied").

Lemma execute_step_outcome_witness :
  let sr := {| step_name := "first"; sr_success := true; sr_output := Some (Number 3);
               sr_error := None; sr_duration_ms := 20; retry_attempts := 1 |} in
  let e := Execution "Step 'first' failed after 1 attempts: Permission denied" in
  execute_step x_transport (fun _ _ => 0) (x_step "first") x_config [] init_state
  = (fst (execute_step x_transport (fun _ _ => 0) (x_step "first") x_config [] init_state),
     Done (inl sr)) /\
  (sr_success sr = true /\ step_name sr = name (x_step "first") /\ sr_error sr = None) /\
  execute_step x_fail_transport (fun _ _ => 0) (x_step "first") x_config [] init_state
  = (fst (execute_step x_fail_transport (fun _ _ => 0) (x_step "first") x_config []
            init_state),
     Done (inr e)) /\
  (exists tc st1 st2 r,
     attempt_loop x_fail_transport (fun _ _ => 0) None tc (x_step "first")
       (step_timeout_of x_config (x_step "first")) (step_retry_config x_config (x_step "first"))
       (max_retries (step_retry_config x_config (x_step "first"))) 0 st1
     = (st2, Done r) /\
     match r with
     | inl (tr, _) =>
         tr_success tr = false /\
         e = Execution (match tr_error tr with Some m => m | None => EmptyString end)
     | inr e' =>
         e = Execution (error_to_string e') /\
         ((exists a m, e' = RetryExhausted (name (x_step "first")) a m) \/
          e' = StepTimeout (name (x_step "first")) (step_timeout_of x_config (x_step "first")))
     end).
Proof.
  intros sr e.
  assert (E : execute_step x_transport (fun _ _ => 0) (x_step "first") x_config [] init_state
    = (fst (execute_step x_transport (fun _ _ => 0) (x_step "first") x_config [] init_state),
       Done (inl sr))) by (vm_compute; reflexivity).
  assert (F : execute_step x_fail_transport (fun _ _ => 0) (x_step "first") x_config []
                init_state
    = (fst (execute_step x_fail_transport (fun _ _ => 0) (x_step "first") x_config []
              init_state),
       Done (inr e))) by (vm_compute; reflexivity).
  split; [exact E|]. split.
  - exact (proj1 (execute_step_outcome x_transport (fun _ _ => 0) (x_step "first") x_config []
                    init_state _ _ E) sr eq_refl).
  - split; [exact F|].
    exact (proj2 (execute_step_outcome x_fail_transport (fun _ _ => 0) (x_step "first")
                    x_config [] init_state _ _ F) e eq_refl).
Defined.

Lemma execute_ok_shape_witness :
  let r := {| sk_success := true;
              step_results := [("first", {| tr_success := true; tr_data := Some (Number 3);
                                             tr_error := None; tr_duration_ms := None |});
                               ("second", {| tr_success := true; tr_data := Some (Number 3);
                                              tr_error := None; tr_duration_ms := None |})];
              sk_output := Some (Number 3); sk_error := None |} in
  execute x_transport (fun _ _ => 0) x_skill x_config [] init_state
  = (fst (execute x_transport (fun _ _ => 0) x_skill x_config [] init_state), Done (inl r)) /\
  (exists k, map fst (step_results r) = map name (firstn k (steps x_skill))) /\
  (sk_success r = true -> map fst (step_results r) = map name (steps x_skill) /\ sk_error r = None) /\
  (sk_success r = false -> exists m, sk_error r = Some m).
Proof.
  intros r.
  assert (E : execute x_transport (fun _ _ => 0) x_skill x_config [] init_state
    = (fst (execute x_transport (fun _ _ => 0) x_skill x_config [] init_state), Done (inl r)))
    by (vm_compute; reflexivity).
  split; [exact E|].
  exact (execute_ok_shape x_transport (fun _ _ => 0) x_skill x_config [] init_state _ r E).
Defined.

Lemma execute_empty_skill_witness :
  let skill := {| skill_name := "noop"; description := "nothing"; inputs := []; steps := [] |} in
  let config := {| timeout := {| skill_timeout := 0; step_timeout := 0; tool_timeout := 0;
                                 timeout_action := Fail |};
                   retry := default_retry_config |} in
  let r := {| sk_success := true; step_results := []; sk_output := None; sk_error := None |} in
  execute x_transport (fun _ _ => 0) skill config [] init_state =
  ({| outputs := []; trace := ([] ++ [BeforeSkill "noop"; AfterSkill r])%list;
      clock := 0; calls := 0; draws := 0 |}, Done (inl r)).
Proof.
  intros skill config r.
  exact (execute_empty_skill x_transport (fun _ _ => 0) skill config [] init_state eq_refl).
Defined.

End ExecExtraProofs.
